(** * Warehouse assistant: the SQLite-backed tools of [agent_test1.py]

    A shallow embedding of the three agent tools [check_warehouse_stock],
    [simulate_purchase] and [save_processing_result] together with the
    database they share, followed by the properties of the stock and
    ledger workflow.

    Modelling conventions.
    - The file [warehouse.db] is a value of type [database]; a tool call
      is a function from the database before the call to its reply and
      the database after the call (every tool opens a connection, runs its
      statements and commits).
    - A table is the list of its rows in rowid order.  No statement of the
      program deletes a row, so rowid order is insertion order, and a
      [SELECT] without [ORDER BY] scans the table in that order.
    - Python's [int] is [Z].  An [int] bound to a parameter of a
      statement must fit SQLite's [INTEGER], a signed 64-bit integer:
      otherwise the binding raises [OverflowError] and the statement is
      not run.
    - Text is [string]; one [ascii] stands for one character.
    - The columns of a table are the fields of its row record, under their
      own names; the tools' parameters [product_name] and [quantity] are
      therefore written [name] and [qty]. *)

From stdpp Require Import base option list strings pretty.
From Stdlib Require Import ZArith Lia Ascii String.

Open Scope string_scope.
Open Scope list_scope.
Open Scope Z_scope.

(** ** SQLite's [LIKE] operator

    [LIKE] without an [ESCAPE] clause: [%] matches any run of characters,
    [_] matches exactly one character, every other character matches
    itself up to the case of the letters A-Z. *)

Definition chars (s : string) : list ascii := list_ascii_of_string s.

Definition lower (c : ascii) : ascii :=
  let n := N_of_ascii c in
  if ((65 <=? n) && (n <=? 90))%N then ascii_of_N (n + 32) else c.

Definition percent : ascii := "%"%char.
Definition underscore : ascii := "_"%char.

Fixpoint like_chars (pat : list ascii) : list ascii -> bool :=
  match pat with
  | [] => fun s => match s with [] => true | _ :: _ => false end
  | c :: pat' =>
      if Ascii.eqb c percent then
        fix skip (s : list ascii) : bool :=
          like_chars pat' s
          || match s with [] => false | _ :: s' => skip s' end
      else if Ascii.eqb c underscore then
        fun s => match s with [] => false | _ :: s' => like_chars pat' s' end
      else
        fun s =>
          match s with
          | [] => false
          | d :: s' => Ascii.eqb (lower c) (lower d) && like_chars pat' s'
          end
  end.

Definition like (pattern text : string) : bool :=
  like_chars (chars pattern) (chars text).

(** ** The schema created by [init_db] *)

(** [warehouse (product_id TEXT PRIMARY KEY, product_name TEXT,
    quantity INTEGER)] *)
Record warehouse_row := WarehouseRow {
  product_id : string;
  product_name : string;
  quantity : Z
}.

(** [processing_results (id INTEGER PRIMARY KEY AUTOINCREMENT, pdf_filename,
    extracted_text, items_found, purchase_actions, timestamp)] *)
Record processing_row := ProcessingRow {
  pr_id : Z;
  pr_pdf_filename : string;
  pr_extracted_text : string;
  pr_items_found : string;
  pr_purchase_actions : string;
  pr_timestamp : string
}.

(** [sqlite_sequence] is the bookkeeping SQLite keeps for an
    [AUTOINCREMENT] column: the largest rowid ever handed out for
    [processing_results]. *)
Record database := Database {
  warehouse : list warehouse_row;
  processing_results : list processing_row;
  sqlite_sequence : Z
}.

Definition empty_db : database := Database [] [] 0.

(** [CREATE TABLE IF NOT EXISTS]: a missing file becomes the empty
    database, an existing one is left as it is. *)
Definition init_db (file : option database) : database :=
  match file with
  | None => empty_db
  | Some db => db
  end.

(** ** Exceptions and results *)

(** The exceptions of the [sqlite3] module that the tools can meet:
    [OverflowError] when an [int] bound to a parameter does not fit an
    [INTEGER], [IntegrityError] when the [INSERT] into [warehouse] is
    rejected by the primary key on [product_id]. *)
Inductive exn := IntegrityError | OverflowError.

(** The values of an [INTEGER]: the signed 64-bit integers. *)
Definition sqlite_integer (n : Z) : Prop := - 2 ^ 63 <= n < 2 ^ 63.

#[global] Instance sqlite_integer_dec n : Decision (sqlite_integer n).
Proof. unfold sqlite_integer. apply _. Defined.

Inductive result (A : Type) :=
  | Returns (a : A)
  | Raises (e : exn).
Arguments Returns {A} a.
Arguments Raises {A} e.

(** ** [check_warehouse_stock] *)

Record stock_reply := StockReply {
  sr_available : bool;
  sr_product : string;
  sr_quantity : Z
}.

(** [SELECT product_name, quantity FROM warehouse WHERE product_name LIKE ?] *)
Definition select_like (pattern : string) (w : list warehouse_row)
  : list (string * Z) :=
  (fun r => (product_name r, quantity r))
    <$> filter (fun r => like pattern (product_name r)) w.

Definition check_warehouse_stock (name : string) (db : database) : stock_reply :=
  let result := head (select_like ("%" +:+ name +:+ "%") (warehouse db)) in
  match result with
  | Some row => StockReply true (fst row) (snd row)
  | None => StockReply false name 0
  end.

(** ** [simulate_purchase] *)

Record purchase_reply := PurchaseReply {
  pu_success : bool;
  pu_action : string;
  pu_product : string;
  pu_quantity : Z;
  pu_message : string
}.

(** [SELECT quantity FROM warehouse WHERE product_name = ?] *)
Definition select_quantity (name : string) (w : list warehouse_row) : list Z :=
  quantity <$> filter (fun r => product_name r = name) w.

(** [UPDATE warehouse SET quantity = ? WHERE product_name = ?] *)
Definition update_quantity (new_quantity : Z) (name : string)
    (w : list warehouse_row) : list warehouse_row :=
  (fun r =>
     if decide (product_name r = name)
     then WarehouseRow (product_id r) (product_name r) new_quantity
     else r) <$> w.

(** [INSERT INTO warehouse (product_id, product_name, quantity) VALUES
    (?, ?, ?)]: rejected when the primary key is already present. *)
Definition insert_warehouse (row : warehouse_row) (w : list warehouse_row)
  : result (list warehouse_row) :=
  if decide (product_id row ∈ product_id <$> w)
  then Raises IntegrityError
  else Returns (w ++ [row]).

(** [f"PROD_{hash(product_name)}"] *)
Definition prod_id (hash : string -> Z) (name : string) : string :=
  "PROD_" +:+ pretty (hash name).

Definition purchased (name : string) (qty : Z) : purchase_reply :=
  PurchaseReply true "purchased" name qty
    ("Acquistati " +:+ pretty qty +:+ " unità di " +:+ name).

(** [hash] is Python's built-in string hash of the running process (it is
    salted per process, so it is an input of the call).  The [UPDATE]
    binds [new_quantity] and the [INSERT] binds [quantity]; a statement
    whose binding raises is not run, and a call that raises commits
    nothing. *)
Definition simulate_purchase (hash : string -> Z) (name : string) (qty : Z)
    (db : database) : result purchase_reply * database :=
  let existing := head (select_quantity name (warehouse db)) in
  let written :=
    match existing with
    | Some q0 =>
        let new_quantity := q0 + qty in
        if decide (sqlite_integer new_quantity)
        then Returns (update_quantity new_quantity name (warehouse db))
        else Raises OverflowError
    | None =>
        if decide (sqlite_integer qty)
        then insert_warehouse (WarehouseRow (prod_id hash name) name qty)
               (warehouse db)
        else Raises OverflowError
    end in
  match written with
  | Returns w' =>
      (Returns (purchased name qty),
       Database w' (processing_results db) (sqlite_sequence db))
  | Raises e => (Raises e, db)
  end.

(** ** [save_processing_result] *)

Record save_reply := SaveReply {
  sv_success : bool;
  sv_result_id : Z;
  sv_message : string
}.

(** The rowid an [AUTOINCREMENT] table gives its next row: one more than
    the largest rowid that ever existed in the table. *)
Definition next_rowid (rows : list processing_row) (seq : Z) : Z :=
  foldr Z.max seq (pr_id <$> rows) + 1.

(** [now] is the clock reading that [DEFAULT CURRENT_TIMESTAMP] stores. *)
Definition save_processing_result (now : string)
    (pdf_filename extracted_text items_found purchase_actions : string)
    (db : database) : save_reply * database :=
  let lastrowid := next_rowid (processing_results db) (sqlite_sequence db) in
  let row :=
    ProcessingRow lastrowid pdf_filename extracted_text items_found
      purchase_actions now in
  let result_id := lastrowid in
  (SaveReply true result_id ("Risultato salvato con ID " +:+ pretty result_id),
   Database (warehouse db) (processing_results db ++ [row]) lastrowid).

(** ** Sequences of tool calls *)

Inductive call :=
  | Check (name : string)
  | Purchase (hash : string -> Z) (name : string) (qty : Z)
  | Save (now pdf_filename extracted_text items_found purchase_actions : string).

(** The database after one call.  A call that raises commits nothing. *)
Definition exec_call (db : database) (c : call) : database :=
  match c with
  | Check _ => db
  | Purchase hash name qty => snd (simulate_purchase hash name qty db)
  | Save now pdf text items actions =>
      snd (save_processing_result now pdf text items actions db)
  end.

Definition exec_calls (cs : list call) (db : database) : database :=
  foldl exec_call db cs.

(** The quantity that purchases of [name] read and write: the first row
    with that exact name, 0 when there is none. *)
Definition stored_quantity (name : string) (db : database) : Z :=
  default 0 (head (select_quantity name (warehouse db))).

Definition sum_quantities (qs : list Z) : Z := foldr Z.add 0 qs.

(** A stand-in for the hash of one process, used where a concrete run is
    evaluated: the length of the name. *)
Definition length_hash (s : string) : Z := Z.of_nat (String.length s).

(** Python salts the hash of strings anew in every process
    (PYTHONHASHSEED): a stand-in for the hash of the process with salt
    [seed]. *)
Definition salted_hash (seed : Z) (s : string) : Z := seed + length_hash s.

(** The store of the specification's scenarios: the first of the rows the
    script's entry point seeds the table with. *)
Definition penne_db : database :=
  Database [WarehouseRow "P001" "Penne" 100] [] 0.

(** [INSERT OR IGNORE INTO warehouse VALUES (?, ?, ?)] *)
Definition insert_or_ignore (row : warehouse_row) (db : database) : database :=
  match insert_warehouse row (warehouse db) with
  | Returns w' => Database w' (processing_results db) (sqlite_sequence db)
  | Raises _ => db
  end.

(** The database the script's entry point works on: [init_db] followed by
    the two seeding inserts. *)
Definition seeded_db (file : option database) : database :=
  insert_or_ignore (WarehouseRow "P002" "Matite" 50)
    (insert_or_ignore (WarehouseRow "P001" "Penne" 100) (init_db file)).

(** ** StockReconciler *)

(** Modelled from the spec: the repository has no reconciler function (the
    agent's system prompt leaves the decision to the language model), so
    the decision procedure is section 4.3 of the specification: for each
    requested item, in input order, look the name up; the item is in
    deficit when the product is absent or its stock is below the quantity
    needed, and the deficit is the quantity needed minus the stock (the
    full quantity needed when absent).  The lookup is the program's
    [check_warehouse_stock]. *)
Fixpoint reconcile (requested_items : list (string * Z)) (db : database)
  : list (string * Z) :=
  match requested_items with
  | [] => []
  | (name, quantity_needed) :: rest =>
      let current := check_warehouse_stock name db in
      if negb (sr_available current) then
        (name, quantity_needed) :: reconcile rest db
      else if sr_quantity current <? quantity_needed then
        (name, quantity_needed - sr_quantity current) :: reconcile rest db
      else
        reconcile rest db
  end.

(** The two notions the reconciler's contract is stated with. *)
Definition in_deficit (db : database) (it : string * Z) : Prop :=
  sr_available (check_warehouse_stock it.1 db) = false
  ∨ sr_quantity (check_warehouse_stock it.1 db) < it.2.

Definition deficit_of (db : database) (it : string * Z) : string * Z :=
  (it.1, it.2 - sr_quantity (check_warehouse_stock it.1 db)).

(** ** WorkflowRunner *)

Inductive failure :=
  | EmptyRequest
  | PurchaseRaised (e : exn)
  | StorageUnavailable.

Inductive run_result :=
  | Done (record : processing_row)
  | Failed (why : failure).

(** Modelled from the spec: the ledger's point lookup [get(id)] of
    section 4.2, which the program does not have. *)
Definition ledger_get (i : Z) (db : database) : option processing_row :=
  head (filter (fun r => pr_id r = i) (processing_results db)).

(** Modelled from the spec: the [Purchasing] state of section 4.4.  The
    deficits are bought in order with the program's [simulate_purchase];
    the first purchase that raises stops the loop and what was bought
    before it stays bought. *)
Fixpoint purchasing (hash : string -> Z) (deficits : list (string * Z))
    (db : database) : result (list (string * Z)) * database :=
  match deficits with
  | [] => (Returns [], db)
  | (name, qty) :: rest =>
      match simulate_purchase hash name qty db with
      | (Returns _, db1) =>
          match purchasing hash rest db1 with
          | (Returns actions, db2) => (Returns ((name, qty) :: actions), db2)
          | (Raises e, db2) => (Raises e, db2)
          end
      | (Raises e, db1) => (Raises e, db1)
      end
  end.

(** Modelled from the spec: [WorkflowRunner.run] of section 4.4, which the
    program replaces by a language-model agent ([process_pdf]).  The run
    validates the request ([Received]), reconciles, purchases, records the
    outcome through the program's [save_processing_result] and returns the
    persisted record.  [encode] writes a sequence of descriptors as the
    text the ledger's columns hold. *)
Definition run (hash : string -> Z) (now : string)
    (encode : list (string * Z) -> string)
    (source_document extracted_text : string)
    (requested_items : list (string * Z)) (db : database)
  : run_result * database :=
  match requested_items with
  | [] => (Failed EmptyRequest, db)
  | _ :: _ =>
      let deficits := reconcile requested_items db in
      match purchasing hash deficits db with
      | (Raises e, db1) => (Failed (PurchaseRaised e), db1)
      | (Returns actions, db1) =>
          let saved :=
            save_processing_result now source_document extracted_text
              (encode requested_items) (encode actions) db1 in
          match ledger_get (sv_result_id (fst saved)) (snd saved) with
          | Some record => (Done record, snd saved)
          | None => (Failed StorageUnavailable, snd saved)
          end
      end
  end.

(** ** Notions the properties are stated with *)

(** The columns that identify a row. *)
Definition identity (r : warehouse_row) : string * string :=
  (product_id r, product_name r).

(** A call that does not buy a negative quantity. *)
Definition quantity_ok (c : call) : Prop :=
  match c with
  | Purchase _ _ qty => 0 <= qty
  | _ => True
  end.

(** Every id of the table was derived, by the hash of some purchase call
    of the sequence, from the name it is stored with. *)
Definition derived_by (cs : list call) (r : warehouse_row) : Prop :=
  exists hash qty,
    Purchase hash (product_name r) qty ∈ cs
    /\ product_id r = prod_id hash (product_name r).

(** Every stored quantity is at least 0. *)
Definition stock_nonneg (db : database) : Prop :=
  Forall (fun r => 0 <= quantity r) (warehouse db).

(** The calls [simulate_purchase(name, q)] for the quantities [qs], in
    order. *)
Definition purchases (hash : string -> Z) (name : string) (qs : list Z)
  : list call :=
  Purchase hash name <$> qs.

(** ** The lookup of the specification *)

(** The lookup as the specification words it (section 4.1): the first
    record, in insertion order, whose [product_name] contains the queried
    name as a substring, letters compared without regard to case. *)
Fixpoint starts_with_ci (p s : list ascii) : bool :=
  match p, s with
  | [], _ => true
  | _ :: _, [] => false
  | c :: p', d :: s' => Ascii.eqb (lower c) (lower d) && starts_with_ci p' s'
  end.

Fixpoint contains_ci_chars (p s : list ascii) : bool :=
  starts_with_ci p s
  || match s with [] => false | _ :: s' => contains_ci_chars p s' end.

Definition contains_ci (name text : string) : bool :=
  contains_ci_chars (chars name) (chars text).

Definition spec_lookup (name : string) (db : database) : option warehouse_row :=
  head (filter (fun r => contains_ci name (product_name r)) (warehouse db)).

Definition spec_lookup_reply (name : string) (db : database) : stock_reply :=
  match spec_lookup name db with
  | Some r => StockReply true (product_name r) (quantity r)
  | None => StockReply false name 0
  end.

(** A character that [LIKE] reads literally. *)
Definition plain (c : ascii) : Prop := c <> percent /\ c <> underscore.

#[global] Instance in_deficit_dec db it : Decision (in_deficit db it).
Proof. unfold in_deficit. apply _. Defined.

(** ** Notions the properties of call sequences are stated with *)

Definition is_purchase (c : call) : Prop :=
  match c with Purchase _ _ _ => True | _ => False end.

Definition is_save (c : call) : Prop :=
  match c with Save _ _ _ _ _ => True | _ => False end.

#[global] Instance is_purchase_dec c : Decision (is_purchase c).
Proof. destruct c; simpl; apply _. Defined.

#[global] Instance is_save_dec c : Decision (is_save c).
Proof. destruct c; simpl; apply _. Defined.

(** The quantities that the purchase calls of a sequence ask for under
    exactly the name [name], in order. *)
Definition purchased_quantities (name : string) (cs : list call) : list Z :=
  omap (fun c =>
          match c with
          | Purchase _ n qty => if decide (n = name) then Some qty else None
          | _ => None
          end) cs.

(** A call returns when it does not raise; lookups and saves always
    do. *)
Definition returns (c : call) (db : database) : Prop :=
  match c with
  | Purchase hash name qty =>
      match fst (simulate_purchase hash name qty db) with
      | Returns _ => True
      | Raises _ => False
      end
  | _ => True
  end.

(** Every call of the sequence returns, each one made in the state its
    predecessors left. *)
Fixpoint all_return (cs : list call) (db : database) : Prop :=
  match cs with
  | [] => True
  | c :: cs' => returns c db /\ all_return cs' (exec_call db c)
  end.

(** The [LIKE] pattern that [check_warehouse_stock] builds for a name. *)
Definition stock_pattern (name : string) : string := "%" +:+ name +:+ "%".

(** * The text tools of [custom_tools.py] *)

(** What a call into a library (the summarisation pipeline, spaCy) gives
    back: a value, or an exception with its message, [str(e)]. *)
Inductive outcome (A : Type) :=
  | Value (a : A)
  | Exception (message : string).
Arguments Value {A} a.
Arguments Exception {A} message.

(** ** Python strings *)

Definition text_of (l : list ascii) : string := string_of_list_ascii l.

(** [s[i:j]] for [0 <= i <= j]; the slice stops at the end of [s]. *)
Definition slice (s : string) (i j : nat) : string :=
  text_of (take (j - i) (drop i (chars s))).

(** [range(0, stop, step)] for a positive [step]. *)
Definition range_step (stop step : nat) : list nat :=
  (fun k => k * step)%nat <$> seq 0 ((stop + step - 1) / step)%nat.

(** [c.isspace()] for one character: the white space that [split] and
    [strip] without arguments act on. *)
Definition is_space (c : ascii) : bool :=
  let n := N_of_ascii c in
  ((9 <=? n) && (n <=? 13) || (28 <=? n) && (n <=? 32)
   || (n =? 133) || (n =? 160))%N.

(** [s.split()]: the maximal runs of characters that are not white
    space.  [word] is the run being read. *)
Fixpoint split_chars (word l : list ascii) : list (list ascii) :=
  match l with
  | [] => match word with [] => [] | _ :: _ => [word] end
  | c :: l' =>
      if is_space c then
        match word with
        | [] => split_chars [] l'
        | _ :: _ => word :: split_chars [] l'
        end
      else split_chars (word ++ [c]) l'
  end.

Definition split (s : string) : list string :=
  text_of <$> split_chars [] (chars s).

(** [s.strip()] *)
Fixpoint lstrip_chars (l : list ascii) : list ascii :=
  match l with
  | [] => []
  | c :: l' => if is_space c then lstrip_chars l' else l
  end.

Definition strip (s : string) : string :=
  text_of (rev (lstrip_chars (rev (lstrip_chars (chars s))))).

(** ** [summarize_text] *)

Definition max_chunk : nat := 1024.

(** [[text[i:i+max_chunk] for i in range(0, len(text), max_chunk)]] *)
Definition chunks (text : string) : list string :=
  (fun i => slice text i (i + max_chunk))
    <$> range_step (String.length text) max_chunk.

(** The loop over the chunks: a chunk of more than 50 words is handed to
    the summariser and its summary is appended; an exception of the
    summariser ends the loop. *)
Fixpoint summarize_chunks (summarizer : string -> Z -> outcome string)
    (max_length : Z) (chunks : list string) : outcome (list string) :=
  match chunks with
  | [] => Value []
  | chunk :: rest =>
      if decide (50 < List.length (split chunk))%nat then
        match summarizer chunk max_length with
        | Exception e => Exception e
        | Value summary =>
            match summarize_chunks summarizer max_length rest with
            | Exception e => Exception e
            | Value summaries => Value (summary :: summaries)
            end
        end
      else summarize_chunks summarizer max_length rest
  end.

(** The two replies of [summarize_text].  [SummaryReport] stands for the
    report text: its lines "Original length" and "Summary length" and the
    summary it ends with are the three components; its line "Compression"
    prints the floating-point ratio of the two lengths and is left out.
    [SummaryError e] stands for the text "Error during summarization: e". *)
Inductive summary_reply :=
  | SummaryReport (original_length summary_length : nat)
      (final_summary : string)
  | SummaryError (message : string).

(** [pipeline task model] is the call of the transformers library that
    loads the summariser, made inside the [try]: the loaded summariser, or
    the exception that loading raises.  A loaded [summarizer] gives the
    text of the summary of a chunk, or the exception it raises.  The ratio
    [len(final_summary) / len(text)] raises [ZeroDivisionError] for the
    empty text, and the handler of the function turns every exception
    into the error reply. *)
Definition summarize_text
    (pipeline : string -> string -> outcome (string -> Z -> outcome string))
    (text : string) (max_length : Z) : summary_reply :=
  match pipeline "summarization" "facebook/bart-large-cnn" with
  | Exception e => SummaryError e
  | Value summarizer =>
      match summarize_chunks summarizer max_length (chunks text) with
      | Exception e => SummaryError e
      | Value summaries =>
          let final_summary := String.concat " " summaries in
          if (String.length text =? 0)%nat then SummaryError "division by zero"
          else SummaryReport (String.length text) (String.length final_summary)
                 final_summary
      end
  end.

(** ** [extract_entities] *)

(** An entity of a parsed document: [ent.label_] and [ent.text]. *)
Record entity := Entity {
  label_ : string;
  ent_text : string
}.

(** The keys of [entities_dict], in the order the dictionary is written. *)
Definition entity_types : list string :=
  ["PERSON"; "ORG"; "GPE"; "LOC"; "DATE"; "MONEY"; "PRODUCT"; "EVENT"].

(** A dictionary is the list of its items in insertion order. *)
Definition empty_entities : list (string * list string) :=
  (fun k => (k, [])) <$> entity_types.

(** One turn of the loop over [doc.ents]: the stripped text is appended to
    the list of its type, when the type is a key of the dictionary and the
    text is not in the list yet. *)
Definition add_entity (entities_dict : list (string * list string))
    (ent : entity) : list (string * list string) :=
  let entity_type := label_ ent in
  let entity_text := strip (ent_text ent) in
  if decide (entity_type ∈ entities_dict.*1) then
    (fun item =>
       if decide (item.1 = entity_type) then
         if decide (entity_text ∈ item.2) then item
         else (item.1, item.2 ++ [entity_text])
       else item) <$> entities_dict
  else entities_dict.

(** [entities_dict] after the loop and after the empty categories are
    removed, [{k: v for k, v in entities_dict.items() if v}]. *)
Definition entities_found (ents : list entity) : list (string * list string) :=
  filter (fun item => item.2 <> []) (foldl add_entity empty_entities ents).

(** [sum(len(v) for v in entities_dict.values())] *)
Definition total_entities (entities_dict : list (string * list string)) : nat :=
  sum_list (List.length <$> entities_dict.*2).

Definition nl : string := String (ascii_of_nat 10) EmptyString.

(** The text built from the dictionary, line by line. *)
Definition format_entities (entities_dict : list (string * list string))
  : string :=
  foldl
    (fun result item =>
       foldl (fun result entity => result +:+ "  • " +:+ entity +:+ nl)
         (result +:+ item.1 +:+ " (" +:+ pretty (List.length item.2) +:+ "):"
          +:+ nl)
         item.2
       +:+ nl)
    ("🏷️  EXTRACTED ENTITIES:" +:+ nl +:+ nl
     +:+ "Total entities found: " +:+ pretty (total_entities entities_dict)
     +:+ nl +:+ nl)
    entities_dict.

(** [nlp model text] is spaCy: the entities [doc.ents] that the model
    named [model] finds in [text], or the exception that loading or
    running it raises. *)
Definition extract_entities (nlp : string -> string -> outcome (list entity))
    (text language : string) : string :=
  let model :=
    if decide (language = "it") then "it_core_news_lg" else "en_core_web_lg" in
  match nlp model text with
  | Exception e => "Error during entity extraction: " +:+ e
  | Value ents => format_entities (entities_found ents)
  end.

(** What one entity does to the list of one type. *)
Definition add_text (k : string) (v : list string) (ent : entity)
  : list string :=
  if decide (k = label_ ent) then
    if decide (strip (ent_text ent) ∈ v) then v
    else v ++ [strip (ent_text ent)]
  else v.

(** The pairs of a type and a stripped text that the entities of a
    document give, for the types that are keys of the dictionary. *)
Definition known_pairs (ents : list entity) : list (string * string) :=
  filter (fun p => p.1 ∈ entity_types)
    ((fun ent => (label_ ent, strip (ent_text ent))) <$> ents).

(** ** [build_knowledge_graph] *)

(** A parsed document: its entities [doc.ents] and its sentences
    [doc.sents], each with its text and its own entities. *)
Record sentence := Sentence {
  sent_text : string;
  sent_ents : list entity
}.

Record document := Document {
  doc_ents : list entity;
  doc_sents : list sentence
}.

(** The statements the function runs in its Neo4j session, with their
    parameters: the deletion of all [Entity] nodes, the [MERGE] of a node,
    the [MERGE] of a [CO_OCCURS] relationship and the final count. *)
Inductive statement :=
  | DeleteEntities
  | MergeEntity (id text type : string)
  | MergeCoOccurs (id1 id2 context : string)
  | CountGraph.

(** [s.replace(' ', '_')] *)
Definition replace_spaces (s : string) : string :=
  text_of ((fun c => if Ascii.eqb c " " then "_"%char else c) <$> chars s).

(** [f"{ent.label_}_{ent.text.replace(' ', '_')}"] *)
Definition entity_id (ent : entity) : string :=
  label_ ent +:+ "_" +:+ replace_spaces (ent_text ent).

(** One turn of the loop over [doc.ents].  The state is [entity_map] (the
    list of its items), the statements run so far and [nodes_created]. *)
Definition create_node
    (st : list (string * entity) * list statement * nat) (ent : entity)
  : list (string * entity) * list statement * nat :=
  let '(entity_map, issued, nodes_created) := st in
  if decide (entity_id ent ∈ entity_map.*1) then st
  else (entity_map ++ [(entity_id ent, ent)],
        issued ++ [MergeEntity (entity_id ent) (ent_text ent) (label_ ent)],
        (nodes_created + 1)%nat).

Definition create_nodes (ents : list entity)
  : list (string * entity) * list statement * nat :=
  foldl create_node ([], [], 0%nat) ents.

(** [for i, ent1 in enumerate(l): for ent2 in l[i+1:]]: every entity with
    every later one. *)
Fixpoint later_pairs {A} (l : list A) : list (A * A) :=
  match l with
  | [] => []
  | x :: l' => ((fun y => (x, y)) <$> l') ++ later_pairs l'
  end.

(** One turn of the inner loop.  The state is the statements run so far
    and [relationships_created]. *)
Definition relate (sent : sentence) (st : list statement * nat)
    (pair : entity * entity) : list statement * nat :=
  (st.1 ++ [MergeCoOccurs (entity_id pair.1) (entity_id pair.2)
              (slice (sent_text sent) 0 200)],
   (st.2 + 1)%nat).

Definition create_relationships (sents : list sentence)
  : list statement * nat :=
  foldl (fun st sent => foldl (relate sent) st (later_pairs (sent_ents sent)))
    ([], 0%nat) sents.

(** The Neo4j side of a call.  Every call into the driver is made inside
    the [try] and may raise; an exception stands with the text [str(e)]
    that reaches the handler of the function:
    - [open_session uri user password] is [GraphDatabase.driver(uri,
      auth=(user, password))] followed by [driver.session()];
    - [session_run ran q] is [session.run] of the statement [q] in a
      session that has run the statements [ran] before;
    - [stats ran] is [session.run(stats_query).single()] after the
      statements [ran], read at its keys [node_count] and
      [relationship_count];
    - [close] is leaving the session and [driver.close()]. *)
Record neo4j := Neo4j {
  open_session : string -> string -> string -> outcome unit;
  session_run : list statement -> statement -> outcome unit;
  stats : list statement -> outcome (nat * nat);
  close : outcome unit
}.

(** The statements [todo] handed to [session.run] one after the other, in
    a session that has run [ran]: the statements handed over, and the
    exception that ended the run, if one was raised.  The statement that
    raises is the last one handed over. *)
Fixpoint run_statements
    (session_run : list statement -> statement -> outcome unit)
    (ran todo : list statement) : list statement * option string :=
  match todo with
  | [] => (ran, None)
  | q :: rest =>
      match session_run ran q with
      | Exception e => (ran ++ [q], Some e)
      | Value _ => run_statements session_run (ran ++ [q]) rest
      end
  end.

(** The two texts the function returns. *)
Definition graph_error (e : string) : string :=
  "Error building knowledge graph: " +:+ e.

Definition graph_created (nodes_created relationships_created node_count
    relationship_count : nat) (neo4j_uri : string) : string :=
  "🕸️  KNOWLEDGE GRAPH CREATED:" +:+ nl +:+ nl
  +:+ "Nodes created: " +:+ pretty nodes_created +:+ nl
  +:+ "Relationships created: " +:+ pretty relationships_created +:+ nl
  +:+ "Total nodes in graph: " +:+ pretty node_count +:+ nl
  +:+ "Total relationships: " +:+ pretty relationship_count +:+ nl +:+ nl
  +:+ "Neo4j URI: " +:+ neo4j_uri +:+ nl
  +:+ "Query to visualize: MATCH (n:Entity) RETURN n LIMIT 25".

(** The reply of [build_knowledge_graph] and the statements it handed to
    [session.run], in order.  [nlp] is spaCy as for [extract_entities],
    here giving the whole document; when it raises, no session is opened.
    Neither loop reads an answer of the database, so the statements of a
    run are those of the two loops up to the first one that raises; the
    handler of the function turns every exception into the error
    reply. *)
Definition build_knowledge_graph (nlp : string -> string -> outcome document)
    (db : neo4j) (text neo4j_uri neo4j_user neo4j_password : string)
  : string * list statement :=
  match nlp "en_core_web_lg" text with
  | Exception e => (graph_error e, [])
  | Value doc =>
      match open_session db neo4j_uri neo4j_user neo4j_password with
      | Exception e => (graph_error e, [])
      | Value _ =>
          let '(_, node_statements, nodes_created) :=
            create_nodes (doc_ents doc) in
          let '(relationship_statements, relationships_created) :=
            create_relationships (doc_sents doc) in
          match run_statements (session_run db) []
                  ([DeleteEntities] ++ node_statements
                   ++ relationship_statements) with
          | (ran, Some e) => (graph_error e, ran)
          | (ran, None) =>
              match stats db ran with
              | Exception e => (graph_error e, ran ++ [CountGraph])
              | Value (node_count, relationship_count) =>
                  match close db with
                  | Exception e => (graph_error e, ran ++ [CountGraph])
                  | Value _ =>
                      (graph_created nodes_created relationships_created
                         node_count relationship_count neo4j_uri,
                       ran ++ [CountGraph])
                  end
              end
          end
      end
  end.

(** ** Notions the properties of the graph statements are stated with *)

(** The statement that creates the node of an item of [entity_map]. *)
Definition node_statement (item : string * entity) : statement :=
  MergeEntity item.1 (ent_text item.2) (label_ item.2).

(** What the loop over [doc.ents] keeps true. *)
Definition nodes_invariant (ents : list entity)
    (st : list (string * entity) * list statement * nat) : Prop :=
  st.1.2 = node_statement <$> st.1.1
  /\ st.2 = List.length st.1.1
  /\ NoDup st.1.1.*1
  /\ (forall i, i ∈ st.1.1.*1 <-> i ∈ entity_id <$> ents)
  /\ Forall (fun item =>
               exists before after,
                 ents = before ++ item.2 :: after
                 /\ item.1 = entity_id item.2
                 /\ item.1 ∉ entity_id <$> before) st.1.1.

(** The statement that relates the two entities of a pair. *)
Definition co_occurrence (sent : sentence) (pair : entity * entity)
  : statement :=
  MergeCoOccurs (entity_id pair.1) (entity_id pair.2)
    (slice (sent_text sent) 0 200).

(** The statements of a run that nothing cuts short. *)
Definition graph_statements (doc : document) : list statement :=
  [DeleteEntities] ++ (create_nodes (doc_ents doc)).1.2
  ++ (create_relationships (doc_sents doc)).1 ++ [CountGraph].

(** A database that accepts every statement and counts [node_count]
    nodes and [relationship_count] relationships at the end. *)
Definition accepting (node_count relationship_count : nat) : neo4j :=
  Neo4j (fun _ _ _ => Value tt) (fun _ _ => Value tt)
    (fun _ => Value (node_count, relationship_count)) (Value tt).

(** A database that raises at the statement number [k] (from 0) of the
    session. *)
Definition failing_at (k : nat) (e : string) : neo4j :=
  Neo4j (fun _ _ _ => Value tt)
    (fun ran _ => if decide (List.length ran = k) then Exception e
                  else Value tt)
    (fun ran => if decide (List.length ran = k) then Exception e
                else Value (0, 0)%nat)
    (Value tt).

(** The document of the examples: two sentences about Apple. *)
Definition apple_doc : document :=
  Document
    [Entity "ORG" "Apple"; Entity "PERSON" "Tim Cook";
     Entity "GPE" "Cupertino"; Entity "ORG" "Apple"]
    [Sentence "Apple CEO Tim Cook announced the iPhone in Cupertino."
       [Entity "ORG" "Apple"; Entity "PERSON" "Tim Cook";
        Entity "GPE" "Cupertino"];
     Sentence "Apple Park hosted the event." [Entity "ORG" "Apple"]].

(** * Properties *)

(** ** Reading and writing the [warehouse] table *)

Section WarehouseTable.

Implicit Types (w : list warehouse_row) (name : string) (q : Z).

Lemma select_quantity_none w name :
  head (select_quantity name w) = None <-> name ∉ product_name <$> w.
Proof.
  unfold select_quantity. induction w as [|r w IH]; simpl.
  - split; [intros _; apply not_elem_of_nil | done].
  - rewrite filter_cons. destruct (decide (product_name r = name)) as [E|N]; simpl.
    + split; [done | intros H; exfalso; apply H; rewrite E; left].
    + rewrite IH, not_elem_of_cons. split; [intros H; by split | by intros [_ H]].
Qed.

Lemma select_quantity_app w1 w2 name :
  select_quantity name (w1 ++ w2)
  = select_quantity name w1 ++ select_quantity name w2.
Proof. unfold select_quantity. by rewrite filter_app, fmap_app. Qed.

Lemma select_quantity_snoc_absent w name i q :
  head (select_quantity name w) = None ->
  head (select_quantity name (w ++ [WarehouseRow i name q])) = Some q.
Proof.
  intros H. rewrite select_quantity_app.
  apply head_None in H. rewrite H. simpl.
  unfold select_quantity. rewrite filter_cons. simpl.
  by destruct (decide (name = name)).
Qed.

Lemma select_quantity_update_same w name q0 v :
  head (select_quantity name w) = Some q0 ->
  head (select_quantity name (update_quantity v name w)) = Some v.
Proof.
  unfold select_quantity, update_quantity.
  induction w as [|r w IH]; simpl; [done|].
  rewrite !filter_cons. simpl.
  destruct (decide (product_name r = name)) as [E|N]; simpl.
  - intros _. by rewrite decide_True.
  - rewrite decide_False by done. apply IH.
Qed.

Lemma select_quantity_update_other w name name' v :
  name' <> name ->
  select_quantity name' (update_quantity v name w) = select_quantity name' w.
Proof.
  intros Hne. unfold select_quantity, update_quantity.
  induction w as [|r w IH]; [done|].
  rewrite fmap_cons.
  destruct (decide (product_name r = name)) as [E|N];
    rewrite !filter_cons; simpl.
  - rewrite !decide_False by congruence. apply IH.
  - destruct (decide (product_name r = name'));
      rewrite ?fmap_cons; [f_equal|]; exact IH.
Qed.

(** An [UPDATE] of the quantity leaves the identifying columns alone. *)
Lemma update_quantity_ids v name w :
  product_id <$> update_quantity v name w = product_id <$> w.
Proof.
  unfold update_quantity. rewrite <- list_fmap_compose.
  apply list_fmap_ext. intros _ r _. simpl. by destruct (decide _).
Qed.

Lemma update_quantity_names v name w :
  product_name <$> update_quantity v name w = product_name <$> w.
Proof.
  unfold update_quantity. rewrite <- list_fmap_compose.
  apply list_fmap_ext. intros _ r _. simpl. by destruct (decide _).
Qed.

End WarehouseTable.

(** ** The outcomes of [simulate_purchase] *)

Section PurchaseOutcomes.

Variable hash : string -> Z.
Implicit Types (db : database) (name : string) (qty : Z).

Lemma simulate_purchase_existing db name qty q0 :
  head (select_quantity name (warehouse db)) = Some q0 ->
  sqlite_integer (q0 + qty) ->
  simulate_purchase hash name qty db
  = (Returns (purchased name qty),
     Database (update_quantity (q0 + qty) name (warehouse db))
       (processing_results db) (sqlite_sequence db)).
Proof.
  intros H Hfits. unfold simulate_purchase. rewrite H. simpl.
  by rewrite decide_True.
Qed.

Lemma simulate_purchase_existing_overflow db name qty q0 :
  head (select_quantity name (warehouse db)) = Some q0 ->
  ~ sqlite_integer (q0 + qty) ->
  simulate_purchase hash name qty db = (Raises OverflowError, db).
Proof.
  intros H Hfits. unfold simulate_purchase. rewrite H. simpl.
  by rewrite decide_False.
Qed.

Lemma simulate_purchase_created db name qty :
  head (select_quantity name (warehouse db)) = None ->
  sqlite_integer qty ->
  prod_id hash name ∉ product_id <$> warehouse db ->
  simulate_purchase hash name qty db
  = (Returns (purchased name qty),
     Database (warehouse db ++ [WarehouseRow (prod_id hash name) name qty])
       (processing_results db) (sqlite_sequence db)).
Proof.
  intros H Hfits Hfree. unfold simulate_purchase, insert_warehouse.
  rewrite H. simpl. rewrite decide_True by done. simpl.
  by rewrite decide_False.
Qed.

Lemma simulate_purchase_rejected db name qty :
  head (select_quantity name (warehouse db)) = None ->
  sqlite_integer qty ->
  prod_id hash name ∈ product_id <$> warehouse db ->
  simulate_purchase hash name qty db = (Raises IntegrityError, db).
Proof.
  intros H Hfits Htaken. unfold simulate_purchase, insert_warehouse.
  rewrite H. simpl. rewrite decide_True by done. simpl.
  by rewrite decide_True.
Qed.

Lemma simulate_purchase_created_overflow db name qty :
  head (select_quantity name (warehouse db)) = None ->
  ~ sqlite_integer qty ->
  simulate_purchase hash name qty db = (Raises OverflowError, db).
Proof.
  intros H Hfits. unfold simulate_purchase. rewrite H. simpl.
  by rewrite decide_False.
Qed.

(** Every call either updates the rows of the name, or appends a row, or
    raises and leaves the database as it was. *)
Lemma simulate_purchase_cases db name qty :
  (exists q0,
      head (select_quantity name (warehouse db)) = Some q0
      /\ sqlite_integer (q0 + qty)
      /\ simulate_purchase hash name qty db
         = (Returns (purchased name qty),
            Database (update_quantity (q0 + qty) name (warehouse db))
              (processing_results db) (sqlite_sequence db)))
  \/ (head (select_quantity name (warehouse db)) = None
      /\ sqlite_integer qty
      /\ (prod_id hash name ∉ product_id <$> warehouse db)
      /\ simulate_purchase hash name qty db
         = (Returns (purchased name qty),
            Database
              (warehouse db ++ [WarehouseRow (prod_id hash name) name qty])
              (processing_results db) (sqlite_sequence db)))
  \/ (exists e, simulate_purchase hash name qty db = (Raises e, db)).
Proof.
  destruct (head (select_quantity name (warehouse db))) as [q0|] eqn:H.
  - destruct (decide (sqlite_integer (q0 + qty))) as [Hfits|Hfits].
    + left. exists q0. by rewrite (simulate_purchase_existing db name qty q0).
    + right. right. exists OverflowError.
      by apply (simulate_purchase_existing_overflow db name qty q0).
  - destruct (decide (sqlite_integer qty)) as [Hfits|Hfits].
    + destruct (decide (prod_id hash name ∈ product_id <$> warehouse db))
        as [Hin|Hout].
      * right. right. exists IntegrityError.
        by apply simulate_purchase_rejected.
      * right. left. by rewrite simulate_purchase_created.
    + right. right. exists OverflowError.
      by apply simulate_purchase_created_overflow.
Qed.

End PurchaseOutcomes.

(** ** Purchases with a quantity that is not positive *)

(** C1 (as stated, refuted): a purchase of -5 units of a stocked product
    returns the confirmation and lowers the stock from 100 to 95, and a
    purchase of 0 units of an unknown product inserts a row.  Neither call
    fails and both change the table. *)
Lemma simulate_purchase_nonpositive_counterexample :
  simulate_purchase length_hash "Penne" (-5) penne_db
  = (Returns (purchased "Penne" (-5)),
     Database [WarehouseRow "P001" "Penne" 95] [] 0)
  /\ simulate_purchase length_hash "Matite" 0 penne_db
     = (Returns (purchased "Matite" 0),
        Database [WarehouseRow "P001" "Penne" 100;
                  WarehouseRow "PROD_6" "Matite" 0] [] 0)
  /\ snd (simulate_purchase length_hash "Penne" (-5) penne_db) <> penne_db
  /\ snd (simulate_purchase length_hash "Matite" 0 penne_db) <> penne_db.
Proof.
  split; [reflexivity|]. split; [reflexivity|].
  split; vm_compute; intros E; discriminate E.
Qed.

(** C1 (amended): [simulate_purchase] has no check of the quantity.  For
    every name and every quantity [qty <= 0]: when a row with that exact
    name exists and the old quantity plus [qty] fits a signed 64-bit
    [INTEGER], the call returns the confirmation and the stored quantity
    becomes the old one plus [qty]; when no such row exists, [qty] fits
    and the derived product id is unused, the call returns the
    confirmation and appends the row [(id, name, qty)]. *)
Theorem simulate_purchase_nonpositive hash name qty db :
  qty <= 0 ->
  (forall q0,
      head (select_quantity name (warehouse db)) = Some q0 ->
      sqlite_integer (q0 + qty) ->
      fst (simulate_purchase hash name qty db) = Returns (purchased name qty)
      /\ stored_quantity name (snd (simulate_purchase hash name qty db))
         = q0 + qty)
  /\ (head (select_quantity name (warehouse db)) = None ->
      sqlite_integer qty ->
      prod_id hash name ∉ product_id <$> warehouse db ->
      fst (simulate_purchase hash name qty db) = Returns (purchased name qty)
      /\ warehouse (snd (simulate_purchase hash name qty db))
         = warehouse db ++ [WarehouseRow (prod_id hash name) name qty]).
Proof.
  intros _. split.
  - intros q0 H Hfits.
    rewrite (simulate_purchase_existing hash db name qty q0 H Hfits).
    split; [done|]. unfold stored_quantity; simpl.
    by rewrite (select_quantity_update_same _ _ q0).
  - intros H Hfits Hfree.
    by rewrite (simulate_purchase_created hash db name qty H Hfits Hfree).
Qed.

(** The amended C1 at the store ("Penne", 100) and the quantity -5. *)
Lemma simulate_purchase_nonpositive_witness :
  stored_quantity "Penne"
    (snd (simulate_purchase length_hash "Penne" (-5) penne_db)) = 100 + -5.
Proof.
  apply (simulate_purchase_nonpositive length_hash "Penne" (-5) penne_db);
    [lia | reflexivity | unfold sqlite_integer; lia].
Defined.

(** ** What [simulate_purchase] returns *)




(** ** Lookup by pattern, purchase by exact name *)

(** C10: the stock lookup matches a stored name by pattern while the
    purchase matches it exactly.  With the seeded row ("Penne", 100) and
    the name "enne", the lookup reports the product "Penne" as available,
    and a purchase of "enne" (under every hash, for every quantity that
    fits an [INTEGER]) leaves that row untouched and appends a new row
    named "enne"; a quantity that does not fit raises [OverflowError] and
    the row "Penne" is not incremented either. *)
Theorem lookup_purchase_mismatch :
  exists db name,
    check_warehouse_stock name db = StockReply true "Penne" 100
    /\ (exists r, r ∈ warehouse db /\ product_name r = "Penne"
                  /\ product_name r <> name
                  /\ like ("%" +:+ name +:+ "%") (product_name r) = true)
    /\ forall hash qty,
        (sqlite_integer qty ->
         simulate_purchase hash name qty db
         = (Returns (purchased name qty),
            Database
              (warehouse db ++ [WarehouseRow (prod_id hash name) name qty])
              (processing_results db) (sqlite_sequence db)))
        /\ (~ sqlite_integer qty ->
            simulate_purchase hash name qty db = (Raises OverflowError, db)).
Proof.
  exists penne_db, "enne". split; [reflexivity|]. split.
  - exists (WarehouseRow "P001" "Penne" 100).
    split; [left|]. by repeat split.
  - intros hash qty. split.
    + intros Hfits. apply simulate_purchase_created; [reflexivity|done|].
      simpl. intros H. apply list_elem_of_singleton in H.
      unfold prod_id in H. simpl in H. discriminate H.
    + intros Hfits. by apply simulate_purchase_created_overflow.
Qed.

(** ** Ledger ids *)

Section Ledger.

Implicit Types (rows : list processing_row) (db : database) (cs : list call).


Lemma next_rowid_above_rows rows seq r :
  r ∈ rows -> pr_id r < next_rowid rows seq.
Proof.
  unfold next_rowid.
  induction 1 as [r rows|r r' rows _ IH]; rewrite fmap_cons; simpl; lia.
Qed.




End Ledger.

(** ** Invariants of the [warehouse] table *)

Section WarehouseInvariants.

Implicit Types (w : list warehouse_row) (db : database) (c : call)
  (cs : list call) (name : string).

Lemma update_quantity_identity v name w :
  identity <$> update_quantity v name w = identity <$> w.
Proof.
  unfold update_quantity. rewrite <- list_fmap_compose.
  apply list_fmap_ext. intros _ r _. simpl. by destruct (decide _).
Qed.

(** One call extends the identifying columns at the end, if at all. *)
Lemma exec_call_identity db c :
  exists new, identity <$> warehouse (exec_call db c)
              = (identity <$> warehouse db) ++ new.
Proof.
  destruct c as [name|hash name qty|now pdf text items actions]; simpl.
  - exists []. by rewrite app_nil_r.
  - destruct (simulate_purchase_cases hash db name qty)
      as [(q0 & Hsel & Hfits & E)|[(Hsel & Hfits & Hout & E)|(e & E)]];
      rewrite E; simpl.
    + exists []. by rewrite update_quantity_identity, app_nil_r.
    + eexists. by rewrite fmap_app.
    + exists []. by rewrite app_nil_r.
  - exists []. by rewrite app_nil_r.
Qed.

Lemma exec_calls_identity cs db :
  (identity <$> warehouse db)
    `prefix_of` (identity <$> warehouse (exec_calls cs db)).
Proof.
  unfold exec_calls. revert db. induction cs as [|c cs IH]; intros db; simpl.
  - done.
  - etrans; [|apply IH].
    destruct (exec_call_identity db c) as [new ->]. by apply prefix_app_r.
Qed.

Lemma exec_call_ids_NoDup db c :
  NoDup (product_id <$> warehouse db) ->
  NoDup (product_id <$> warehouse (exec_call db c)).
Proof.
  intros Hnd.
  destruct c as [name|hash name qty|now pdf text items actions]; simpl; try done.
  destruct (simulate_purchase_cases hash db name qty)
      as [(q0 & Hsel & Hfits & E)|[(Hsel & Hfits & Hout & E)|(e & E)]];
      rewrite E; simpl; [| |done].
  - by rewrite update_quantity_ids.
  - rewrite fmap_app. apply NoDup_app. split; [done|]. split.
    + intros x Hx Hx'. apply list_elem_of_singleton in Hx'. by subst x.
    + apply NoDup_singleton.
Qed.

Lemma exec_call_names_NoDup db c :
  NoDup (product_name <$> warehouse db) ->
  NoDup (product_name <$> warehouse (exec_call db c)).
Proof.
  intros Hnd.
  destruct c as [name|hash name qty|now pdf text items actions]; simpl; try done.
  destruct (simulate_purchase_cases hash db name qty)
      as [(q0 & Hsel & Hfits & E)|[(Hsel & Hfits & Hout & E)|(e & E)]];
      rewrite E; simpl; [| |done].
  - by rewrite update_quantity_names.
  - rewrite fmap_app. apply NoDup_app. split; [done|]. split.
    + intros x Hx Hx'. apply list_elem_of_singleton in Hx'. subst x.
      by apply select_quantity_none in Hsel.
    + apply NoDup_singleton.
Qed.

Lemma exec_call_derived db c cs :
  Forall (derived_by cs) (warehouse db) ->
  Forall (derived_by (cs ++ [c])) (warehouse (exec_call db c)).
Proof.
  intros Hall.
  assert (Hold : Forall (derived_by (cs ++ [c])) (warehouse db)).
  { eapply Forall_impl; [exact Hall|]. intros r (hash & qty & Hin & Hid).
    exists hash, qty. split; [|done]. apply elem_of_app. by left. }
  destruct c as [name|hash name qty|now pdf text items actions]; simpl; try done.
  destruct (simulate_purchase_cases hash db name qty)
      as [(q0 & Hsel & Hfits & E)|[(Hsel & Hfits & Hout & E)|(e & E)]];
      rewrite E; simpl; [| |done].
  - unfold update_quantity. apply Forall_fmap.
    eapply Forall_impl; [exact Hold|]. intros r Hr. simpl.
    destruct (decide _); [|done].
    destruct Hr as (hash' & qty' & Hin & Hid). by exists hash', qty'.
  - apply Forall_app. split; [done|]. apply Forall_singleton.
    exists hash, qty. simpl. split; [|done].
    apply elem_of_app. right. by apply list_elem_of_singleton.
Qed.

Lemma exec_calls_snoc cs c db :
  exec_calls (cs ++ [c]) db = exec_call (exec_calls cs db) c.
Proof. unfold exec_calls. by rewrite foldl_snoc. Qed.

(** Two rows of a table that agree on a column without duplicates are
    the same row. *)
Lemma NoDup_fmap_eq {A B} (f : A -> B) (l : list A) x y :
  NoDup (f <$> l) -> x ∈ l -> y ∈ l -> f x = f y -> x = y.
Proof.
  induction l as [|a l IH]; [by intros _ H; inversion H|].
  rewrite fmap_cons, NoDup_cons. intros [Ha Hnd] Hx Hy E.
  apply elem_of_cons in Hx as [->|Hx]; apply elem_of_cons in Hy as [->|Hy].
  - done.
  - exfalso. apply Ha. rewrite E. by apply list_elem_of_fmap_2.
  - exfalso. apply Ha. rewrite <- E. by apply list_elem_of_fmap_2.
  - by apply IH.
Qed.

(** What does hold of the ids inside one table: in every state reached
    from the freshly initialised database by tool calls alone (whatever
    the hash of each call), the product ids are pairwise distinct and so
    are the product names; every id was derived from the name of its row
    by the purchase call that created the row; and later calls never
    change it. *)
Lemma table_ids_kept cs :
  let db := exec_calls cs (init_db None) in
  NoDup (product_id <$> warehouse db)
  /\ NoDup (product_name <$> warehouse db)
  /\ (forall r1 r2, r1 ∈ warehouse db -> r2 ∈ warehouse db ->
        (product_id r1 = product_id r2 <-> product_name r1 = product_name r2))
  /\ Forall (derived_by cs) (warehouse db)
  /\ forall later,
      (identity <$> warehouse db)
        `prefix_of` (identity <$> warehouse (exec_calls later db)).
Proof.
  simpl.
  assert (Hinv : NoDup (product_id <$> warehouse (exec_calls cs empty_db))
                 /\ NoDup (product_name <$> warehouse (exec_calls cs empty_db))
                 /\ Forall (derived_by cs) (warehouse (exec_calls cs empty_db))).
  { induction cs as [|c cs IH] using rev_ind.
    - simpl. repeat split; constructor.
    - destruct IH as (Hids & Hnames & Hder). rewrite exec_calls_snoc.
      split; [by apply exec_call_ids_NoDup|].
      split; [by apply exec_call_names_NoDup|].
      by apply exec_call_derived. }
  destruct Hinv as (Hids & Hnames & Hder).
  split; [done|]. split; [done|]. split; [|split; [done|]].
  - intros r1 r2 H1 H2. split; intros E.
    + by rewrite (NoDup_fmap_eq product_id _ r1 r2 Hids H1 H2 E).
    + by rewrite (NoDup_fmap_eq product_name _ r1 r2 Hnames H1 H2 E).
  - intros later. apply exec_calls_identity.
Qed.

End WarehouseInvariants.

(** C6 (the program departs from the claim): the product id is derived
    from the hash of the name by the call that creates the row, and the
    hash of a string changes from process to process.
    - The same name does not always yield the same id: on the fresh
      database, the purchase of "Penne" stores the id "PROD_5" in a
      process with one salt and "PROD_6" in a process with another.
    - Two distinct names can derive the same id: "Penne" and "Gomme" do
      under the hash of one process, and then the second of them is
      rejected by the primary key and never stored.
    - The same name can stand under two ids in one table: after a
      purchase of "Matite", the seeding of the script's entry point adds a
      second row named "Matite". *)
Theorem product_id_unstable :
  (let db1 := exec_calls [Purchase (salted_hash 0) "Penne" 100] (init_db None) in
   let db2 := exec_calls [Purchase (salted_hash 1) "Penne" 100] (init_db None) in
   identity <$> warehouse db1 = [("PROD_5", "Penne")]
   /\ identity <$> warehouse db2 = [("PROD_6", "Penne")]
   /\ prod_id (salted_hash 0) "Penne" <> prod_id (salted_hash 1) "Penne")
  /\ (let db := exec_calls [Purchase length_hash "Penne" 100] (init_db None) in
      "Penne" <> "Gomme"
      /\ prod_id length_hash "Penne" = prod_id length_hash "Gomme"
      /\ simulate_purchase length_hash "Gomme" 20 db = (Raises IntegrityError, db)
      /\ identity <$> warehouse db = [("PROD_5", "Penne")])
  /\ (let db := exec_calls [Purchase length_hash "Matite" 5] (init_db None) in
      identity <$> warehouse (seeded_db (Some db))
      = [("PROD_6", "Matite"); ("P001", "Penne"); ("P002", "Matite")]).
Proof.
  cbv zeta. split; [|split].
  - split; [reflexivity|]. split; [reflexivity|]. vm_compute. discriminate.
  - split; [discriminate|]. split; [reflexivity|]. split; reflexivity.
  - reflexivity.
Qed.

(** ** Stored quantities are not negative, as long as no purchase is *)

Section NonNegativeStock.

Implicit Types (w : list warehouse_row) (db : database) (c : call)
  (cs : list call) (name : string).

Lemma select_quantity_head_elem w name q0 :
  head (select_quantity name w) = Some q0 ->
  exists r, r ∈ w /\ product_name r = name /\ quantity r = q0.
Proof.
  intros H. apply head_Some_elem_of in H.
  unfold select_quantity in H. apply list_elem_of_fmap in H as (r & -> & Hr).
  apply list_elem_of_filter in Hr as [Hname Hin]. by exists r.
Qed.

Lemma exec_call_nonneg db c :
  quantity_ok c -> stock_nonneg db -> stock_nonneg (exec_call db c).
Proof.
  unfold stock_nonneg. intros Hc Hdb.
  destruct c as [name|hash name qty|now pdf text items actions];
    cbn [exec_call quantity_ok] in *; try done.
  destruct (simulate_purchase_cases hash db name qty)
    as [(q0 & Hsel & Hfits & E)|[(Hsel & Hfits & Hout & E)|(e & E)]];
    rewrite E; simpl; [| |done].
  - apply select_quantity_head_elem in Hsel as (r0 & Hin & _ & Hq).
    assert (0 <= q0) by (subst q0; by eapply (proj1 (Forall_forall _ _) Hdb)).
    unfold update_quantity. apply Forall_fmap.
    eapply Forall_impl; [exact Hdb|]. intros r Hr. cbv beta in Hr. simpl.
    destruct (decide (product_name r = name)); simpl; lia.
  - apply Forall_app. split; [done|]. by apply Forall_singleton.
Qed.

Lemma exec_calls_nonneg cs db :
  Forall quantity_ok cs -> stock_nonneg db -> stock_nonneg (exec_calls cs db).
Proof.
  unfold exec_calls. intros Hcs. revert db.
  induction Hcs as [|c cs Hc _ IH]; intros db Hdb; simpl; [done|].
  apply IH. by apply exec_call_nonneg.
Qed.

Lemma check_warehouse_stock_nonneg name db :
  stock_nonneg db -> 0 <= sr_quantity (check_warehouse_stock name db).
Proof.
  unfold stock_nonneg, check_warehouse_stock. intros Hdb.
  destruct (head (select_like _ _)) as [[n q]|] eqn:Hsel; simpl; [|lia].
  apply head_Some_elem_of in Hsel. unfold select_like in Hsel.
  apply list_elem_of_fmap in Hsel as (r & E & Hr). injection E as -> ->.
  apply list_elem_of_filter in Hr as [_ Hin].
  by eapply (proj1 (Forall_forall _ _) Hdb).
Qed.

(** C2 (as stated, refuted): starting from the empty database, one
    purchase of -5 units stores a row with quantity -5, and the lookup of
    that product reports the quantity -5. *)
Lemma stock_nonnegative_counterexample :
  let db := exec_calls [Purchase length_hash "Penne" (-5)] (init_db None) in
  warehouse db = [WarehouseRow "PROD_5" "Penne" (-5)]
  /\ check_warehouse_stock "Penne" db = StockReply true "Penne" (-5)
  /\ ~ stock_nonneg db
  /\ ~ 0 <= sr_quantity (check_warehouse_stock "Penne" db).
Proof.
  simpl. split; [reflexivity|]. split; [reflexivity|]. split.
  - intros H. apply Forall_cons_1 in H as [H _]. simpl in H. lia.
  - vm_compute. intros H. by apply H.
Qed.

(** C2 (amended): in every state reached from the freshly initialised
    database by tool calls none of which buys a negative quantity, every
    row of [warehouse] has a quantity [>= 0], and so [check_warehouse_stock]
    reports a quantity [>= 0] for every name. *)
Theorem stock_nonnegative cs :
  Forall quantity_ok cs ->
  let db := exec_calls cs (init_db None) in
  Forall (fun r => 0 <= quantity r) (warehouse db)
  /\ forall name, 0 <= sr_quantity (check_warehouse_stock name db).
Proof.
  intros Hcs db.
  assert (Hdb : stock_nonneg db).
  { apply exec_calls_nonneg; [done|]. constructor. }
  split; [exact Hdb|]. intros name. by apply check_warehouse_stock_nonneg.
Qed.

(** The amended C2 at a run of five tool calls. *)
Lemma stock_nonnegative_witness :
  let db :=
    exec_calls [Purchase length_hash "Penne" 100; Check "enne";
                Purchase length_hash "Penne" 0;
                Save "2025-01-01 00:00:00" "doc1.pdf" "text" "[]" "[]";
                Purchase length_hash "Matite" 20]
      (init_db None) in
  Forall (fun r => 0 <= quantity r) (warehouse db)
  /\ forall name, 0 <= sr_quantity (check_warehouse_stock name db).
Proof.
  apply (stock_nonnegative
           [Purchase length_hash "Penne" 100; Check "enne";
            Purchase length_hash "Penne" 0;
            Save "2025-01-01 00:00:00" "doc1.pdf" "text" "[]" "[]";
            Purchase length_hash "Matite" 20]).
  repeat constructor; simpl; lia.
Defined.

End NonNegativeStock.

(** ** Repeated purchases of one product *)

Section RepeatedPurchases.

Variable hash : string -> Z.
Implicit Types (db : database) (name : string) (qs : list Z).

Lemma purchase_of_stored db name q q0 :
  head (select_quantity name (warehouse db)) = Some q0 ->
  sqlite_integer (q0 + q) ->
  head (select_quantity name (warehouse (exec_call db (Purchase hash name q))))
  = Some (q0 + q).
Proof.
  intros H Hfits. simpl.
  rewrite (simulate_purchase_existing hash db name q q0 H Hfits).
  simpl. by apply (select_quantity_update_same _ _ q0).
Qed.

Lemma purchase_of_unseen db name q :
  head (select_quantity name (warehouse db)) = None ->
  sqlite_integer q ->
  prod_id hash name ∉ product_id <$> warehouse db ->
  head (select_quantity name (warehouse (exec_call db (Purchase hash name q))))
  = Some q.
Proof.
  intros H Hfits Hfree. simpl.
  rewrite (simulate_purchase_created hash db name q H Hfits Hfree). simpl.
  by apply select_quantity_snoc_absent.
Qed.

Lemma sum_quantities_pos qs : Forall (fun q => 0 < q) qs -> 0 <= sum_quantities qs.
Proof. induction 1 as [|q qs Hq _ IH]; simpl; lia. Qed.

Lemma purchases_of_stored qs db name q0 :
  head (select_quantity name (warehouse db)) = Some q0 ->
  Forall (fun q => 0 < q) qs ->
  - 2 ^ 63 <= q0 ->
  q0 + sum_quantities qs < 2 ^ 63 ->
  head (select_quantity name (warehouse (exec_calls (purchases hash name qs) db)))
  = Some (q0 + sum_quantities qs).
Proof.
  unfold exec_calls, purchases. intros H Hqs. revert db q0 H.
  induction Hqs as [|q qs Hq Hqs IH]; intros db q0 H Hlo Hhi.
  - simpl. rewrite H. f_equal. lia.
  - rewrite fmap_cons. cbn [foldl].
    assert (Hs := sum_quantities_pos qs Hqs).
    change (sum_quantities (q :: qs)) with (q + sum_quantities qs) in *.
    rewrite (IH _ (q0 + q)).
    + f_equal. lia.
    + apply purchase_of_stored; [done|]. unfold sqlite_integer. lia.
    + lia.
    + lia.
Qed.

(** Repeated purchases do add up while every written quantity fits a
    signed 64-bit INTEGER and the first purchase of an unseen name finds
    its derived product id unused: for positive quantities, all of the
    same product name, the stored quantity of that name at the end is
    its initial quantity (0 for an unseen name) plus their sum. *)
Lemma purchases_sum_in_range name qs db :
  Forall (fun q => 0 < q) qs ->
  - 2 ^ 63 <= stored_quantity name db ->
  stored_quantity name db + sum_quantities qs < 2 ^ 63 ->
  (head (select_quantity name (warehouse db)) = None ->
   prod_id hash name ∉ product_id <$> warehouse db) ->
  let final := exec_calls (purchases hash name qs) db in
  stored_quantity name final = stored_quantity name db + sum_quantities qs.
Proof.
  intros Hqs Hlo Hhi Hfree. simpl. revert Hlo Hhi. unfold stored_quantity.
  destruct (head (select_quantity name (warehouse db))) as [q0|] eqn:H;
    intros Hlo Hhi.
  - by rewrite (purchases_of_stored qs db name q0 H).
  - destruct Hqs as [|q qs Hq Hqs].
    + simpl. by rewrite H.
    + assert (Hs := sum_quantities_pos qs Hqs).
      change (sum_quantities (q :: qs)) with (q + sum_quantities qs) in *.
      assert (Hq' : head (select_quantity name
                      (warehouse (exec_call db (Purchase hash name q)))) = Some q).
      { apply purchase_of_unseen; [done| |by apply Hfree].
        unfold sqlite_integer. simpl in Hlo, Hhi. lia. }
      change (exec_calls (purchases hash name (q :: qs)) db)
        with (exec_calls (purchases hash name qs)
                (exec_call db (Purchase hash name q))).
      simpl in Hlo, Hhi.
      rewrite (purchases_of_stored qs _ name q Hq') by (done || lia).
      done.
Qed.

End RepeatedPurchases.

(** C3 (the program departs from the claim): purchases with positive
    quantities, all of one product name, do not always add up.
    - After "Penne" was bought in a process whose hash gives "Penne" and
      "Gomme" the same value, the product id derived for "Gomme" is taken:
      both purchases of "Gomme" are rejected by the primary key, no record
      is created, and the stored quantity stays 0 instead of 0 + 20 + 30.
    - On the fresh database, after a purchase of 2^63 - 1 units of
      "Penne" the purchase of one more unit raises [OverflowError] and
      the stored quantity stays 2^63 - 1 instead of 2^63. *)
Theorem repeated_purchases_lost :
  (let db := exec_calls [Purchase length_hash "Penne" 100] (init_db None) in
   let final := exec_calls (purchases length_hash "Gomme" [20; 30]) db in
   warehouse db = [WarehouseRow "PROD_5" "Penne" 100]
   /\ Forall (fun q => 0 < q) [20; 30]
   /\ simulate_purchase length_hash "Gomme" 20 db = (Raises IntegrityError, db)
   /\ final = db
   /\ stored_quantity "Gomme" final = 0
   /\ stored_quantity "Gomme" db + sum_quantities [20; 30] = 50)
  /\ (let db := init_db None in
      let qs := [2 ^ 63 - 1; 1] in
      let once := exec_calls (purchases length_hash "Penne" [2 ^ 63 - 1]) db in
      let final := exec_calls (purchases length_hash "Penne" qs) db in
      Forall (fun q => 0 < q) qs
      /\ warehouse once = [WarehouseRow "PROD_5" "Penne" (2 ^ 63 - 1)]
      /\ simulate_purchase length_hash "Penne" 1 once = (Raises OverflowError, once)
      /\ final = once
      /\ stored_quantity "Penne" final = 2 ^ 63 - 1
      /\ stored_quantity "Penne" db + sum_quantities qs = 2 ^ 63).
Proof.
  split.
  - cbv zeta. split; [reflexivity|]. split; [repeat constructor|].
    split; [reflexivity|]. split; [reflexivity|]. split; reflexivity.
  - cbv zeta. split; [repeat constructor|]. split; [reflexivity|].
    split; [reflexivity|]. split; [reflexivity|]. split; reflexivity.
Qed.

(** ** [LIKE] on names without wildcards *)

Section Like.

Implicit Types (c d : ascii) (p pat s : list ascii).

Lemma chars_app (a b : string) : chars (a +:+ b) = chars a ++ chars b.
Proof. induction a as [|c a IH]; simpl; [done|]. by rewrite IH. Qed.

Lemma like_chars_percent pat s :
  like_chars (percent :: pat) s
  = like_chars pat s
    || match s with [] => false | _ :: s' => like_chars (percent :: pat) s' end.
Proof. by destruct s. Qed.

Lemma like_chars_plain c pat s :
  plain c ->
  like_chars (c :: pat) s
  = match s with
    | [] => false
    | d :: s' => Ascii.eqb (lower c) (lower d) && like_chars pat s'
    end.
Proof.
  intros [Hp Hu]. simpl.
  apply Ascii.eqb_neq in Hp. apply Ascii.eqb_neq in Hu.
  rewrite Hp, Hu. by destruct s.
Qed.

Lemma like_chars_trailing_percent s : like_chars [percent] s = true.
Proof.
  induction s as [|d s IH]; [done|].
  rewrite like_chars_percent, IH. by rewrite orb_true_r.
Qed.

(** A pattern of plain characters followed by [%] asks for a prefix. *)
Lemma like_chars_prefix p s :
  Forall plain p -> like_chars (p ++ [percent]) s = starts_with_ci p s.
Proof.
  intros Hp. revert s. induction Hp as [|c p Hc _ IH]; intros s.
  - apply like_chars_trailing_percent.
  - rewrite <- app_comm_cons, (like_chars_plain c _ _ Hc).
    destruct s as [|d s]; simpl; [done|]. by rewrite IH.
Qed.

(** Between two [%], a pattern of plain characters asks for a substring. *)
Lemma like_chars_substring p s :
  Forall plain p ->
  like_chars (percent :: p ++ [percent]) s = contains_ci_chars p s.
Proof.
  intros Hp. induction s as [|d s IH].
  - rewrite like_chars_percent, like_chars_prefix by done. simpl.
    by rewrite orb_false_r.
  - rewrite like_chars_percent, like_chars_prefix, IH by done. done.
Qed.

Lemma like_contains_ci (name text : string) :
  Forall plain (chars name) ->
  like ("%" +:+ name +:+ "%") text = contains_ci name text.
Proof.
  intros Hp. unfold like, contains_ci.
  rewrite !chars_app. by apply like_chars_substring.
Qed.

(** [starts_with_ci] and [contains_ci_chars] decide what their names say. *)
Lemma starts_with_ci_spec p s :
  starts_with_ci p s = true
  <-> exists mid post, s = mid ++ post /\ lower <$> mid = lower <$> p.
Proof.
  revert s. induction p as [|c p IH]; intros s; simpl.
  - split; [intros _; by exists [], s|done].
  - destruct s as [|d s].
    + split; [done|]. intros (mid & post & E & Hm).
      destruct mid; [done|]. discriminate E.
    + rewrite andb_true_iff, IH, Ascii.eqb_eq. split.
      * intros (Hcd & mid & post & -> & Hm). exists (d :: mid), post.
        split; [done|]. rewrite !fmap_cons. by rewrite Hm, Hcd.
      * intros (mid & post & E & Hm). destruct mid as [|m mid]; [done|].
        rewrite !fmap_cons in Hm. injection E as -> ->.
        injection Hm as Hd Hm. split; [done|]. by exists mid, post.
Qed.

Lemma contains_ci_chars_spec p s :
  contains_ci_chars p s = true
  <-> exists pre mid post,
      s = pre ++ mid ++ post /\ lower <$> mid = lower <$> p.
Proof.
  induction s as [|d s IH]; simpl.
  - rewrite orb_false_r, starts_with_ci_spec. split.
    + intros (mid & post & E & Hm). by exists [], mid, post.
    + intros (pre & mid & post & E & Hm).
      destruct pre; [|discriminate E]. by exists mid, post.
  - rewrite orb_true_iff, starts_with_ci_spec, IH. split.
    + intros [(mid & post & E & Hm)|(pre & mid & post & E & Hm)].
      * by exists [], mid, post.
      * exists (d :: pre), mid, post. by rewrite E.
    + intros (pre & mid & post & E & Hm). destruct pre as [|d' pre].
      * left. by exists mid, post.
      * right. injection E as -> E. by exists pre, mid, post.
Qed.

End Like.

(** For a name without [%] and [_], [check_warehouse_stock] is the lookup
    of the specification. *)
Lemma check_warehouse_stock_plain name db :
  Forall plain (chars name) ->
  check_warehouse_stock name db = spec_lookup_reply name db.
Proof.
  intros Hp. unfold check_warehouse_stock, spec_lookup_reply, spec_lookup,
    select_like.
  rewrite (list_filter_iff _ (fun r => contains_ci name (product_name r))).
  - by destruct (filter _ (warehouse db)).
  - intros r. by rewrite like_contains_ci.
Qed.

(** A filter by a test that fails on every element keeps nothing. *)
Lemma filter_none_false {A} (f : A -> bool) (l : list A) :
  Forall (fun x => f x = false) l -> filter (fun x => f x) l = [].
Proof.
  induction 1 as [|x l Hx _ IH]; [done|].
  rewrite filter_cons, decide_False; [done|]. rewrite Hx. exact id.
Qed.

(** What the lookup of the specification returns: a reply for the first
    row, in insertion order, whose name contains the queried name, and the
    absent reply when there is none. *)
Lemma spec_lookup_reply_first name db w1 r w2 :
  warehouse db = w1 ++ r :: w2 ->
  contains_ci name (product_name r) = true ->
  Forall (fun r' => contains_ci name (product_name r') = false) w1 ->
  spec_lookup_reply name db = StockReply true (product_name r) (quantity r).
Proof.
  intros Hw Hr Hw1. unfold spec_lookup_reply, spec_lookup.
  rewrite Hw, filter_app, filter_cons, decide_True by by rewrite Hr.
  by rewrite (filter_none_false _ _ Hw1).
Qed.

Lemma spec_lookup_reply_none name db :
  Forall (fun r => contains_ci name (product_name r) = false) (warehouse db) ->
  spec_lookup_reply name db = StockReply false name 0.
Proof.
  intros Hw. unfold spec_lookup_reply, spec_lookup.
  by rewrite (filter_none_false _ _ Hw).
Qed.

Lemma spec_lookup_reply_available name db :
  sr_available (spec_lookup_reply name db) = true
  <-> exists r, r ∈ warehouse db /\ contains_ci name (product_name r) = true.
Proof.
  unfold spec_lookup_reply, spec_lookup.
  destruct (filter _ (warehouse db)) as [|r l] eqn:E; simpl.
  - split; [done|]. intros (r & Hin & Hr). exfalso.
    assert (Hr' : r ∈ filter (fun r => contains_ci name (product_name r))
                    (warehouse db)).
    { apply list_elem_of_filter. split; [by rewrite Hr|done]. }
    rewrite E in Hr'. by apply not_elem_of_nil in Hr'.
  - split; [intros _|done]. exists r.
    assert (Hr : r ∈ r :: l) by left. rewrite <- E in Hr.
    apply list_elem_of_filter in Hr as [Hr Hin]. split; [done|].
    by apply Is_true_true.
Qed.

(** C5 (the program departs from the claim): the name is pasted into the
    [LIKE] pattern unescaped, so a [_] or [%] in it is a wildcard.
    "P_nne" is no substring of "Penne" and the lookup of the
    specification finds nothing, yet [check_warehouse_stock] reports the
    product "Penne" as available; the same happens for the name "%". *)
Theorem check_warehouse_stock_wildcard :
  contains_ci "P_nne" "Penne" = false
  /\ spec_lookup_reply "P_nne" penne_db = StockReply false "P_nne" 0
  /\ check_warehouse_stock "P_nne" penne_db = StockReply true "Penne" 100
  /\ contains_ci "%" "Penne" = false
  /\ check_warehouse_stock "%" penne_db = StockReply true "Penne" 100.
Proof. repeat split; reflexivity. Qed.

(** ** StockReconciler *)

Section Reconciler.

Implicit Types (db : database) (items : list (string * Z)) (it : string * Z).

Lemma check_warehouse_stock_absent name db :
  sr_available (check_warehouse_stock name db) = false ->
  sr_quantity (check_warehouse_stock name db) = 0.
Proof.
  unfold check_warehouse_stock. by destruct (head (select_like _ _)).
Qed.

(** The loop of the reconciler keeps the items in deficit and pairs each
    with its deficit. *)
Lemma reconcile_filter items db :
  reconcile items db = deficit_of db <$> filter (in_deficit db) items.
Proof.
  induction items as [|[name needed] items IH]; [done|].
  rewrite filter_cons. cbn [reconcile].
  destruct (decide (in_deficit db (name, needed))) as [Hdef|Hsat];
    rewrite ?fmap_cons, <- IH.
  - unfold in_deficit in Hdef. unfold deficit_of. simpl in *.
    destruct (sr_available (check_warehouse_stock name db)) eqn:Hav; simpl.
    + destruct Hdef as [Habs|Hlt]; [done|].
      by rewrite (proj2 (Z.ltb_lt _ _) Hlt).
    + rewrite (check_warehouse_stock_absent name db Hav). do 2 f_equal. lia.
  - unfold in_deficit in Hsat. simpl in Hsat.
    destruct (sr_available (check_warehouse_stock name db)) eqn:Hav; simpl.
    + destruct (Z.ltb_spec (sr_quantity (check_warehouse_stock name db)) needed)
        as [Hlt|Hge]; [|done].
      exfalso. apply Hsat. by right.
    + exfalso. apply Hsat. by left.
Qed.

(** C8: for requested items with positive needed quantities,
    the reconciler returns exactly the items in deficit, in input order,
    each with the quantity needed minus the current stock (the full
    quantity needed for an absent product): its output is the list of
    deficits of the sub-list of items in deficit, so an item whose stock
    meets the quantity needed is left out; the names of the output form a
    sub-sequence of the names of the input; and every deficit is
    positive. *)
Theorem reconcile_deficits items db :
  Forall (fun it => 0 < it.2) items ->
  reconcile items db = deficit_of db <$> filter (in_deficit db) items
  /\ (forall name d,
        (name, d) ∈ reconcile items db ->
        exists needed,
          (name, needed) ∈ items
          /\ in_deficit db (name, needed)
          /\ d = needed - sr_quantity (check_warehouse_stock name db)
          /\ (sr_available (check_warehouse_stock name db) = false ->
              d = needed))
  /\ (forall it, it ∈ items -> in_deficit db it ->
        deficit_of db it ∈ reconcile items db)
  /\ (forall it, it ∈ items ->
        sr_available (check_warehouse_stock it.1 db) = true ->
        it.2 <= sr_quantity (check_warehouse_stock it.1 db) ->
        it ∉ filter (in_deficit db) items)
  /\ (reconcile items db).*1 `sublist_of` items.*1
  /\ Forall (fun d => 0 < d.2) (reconcile items db).
Proof.
  intros Hpos. rewrite reconcile_filter.
  split; [done|]. split; [|split; [|split; [|split]]].
  - intros name d Hin.
    apply list_elem_of_fmap in Hin as ([name' needed] & E & Hin).
    apply list_elem_of_filter in Hin as [Hdef Hin].
    unfold deficit_of in E; simpl in E. injection E as -> ->.
    exists needed. split; [done|]. split; [done|]. split; [done|].
    intros Hav. rewrite (check_warehouse_stock_absent _ _ Hav). lia.
  - intros it Hin Hdef. apply list_elem_of_fmap_2.
    by apply list_elem_of_filter.
  - intros it Hin Hav Hge Hout.
    apply list_elem_of_filter in Hout as [[Habs|Hlt] _].
    + by rewrite Hav in Habs.
    + lia.
  - rewrite <- list_fmap_compose.
    rewrite (list_fmap_ext (fst ∘ deficit_of db) fst (filter (in_deficit db) items))
      by done.
    apply fmap_sublist, sublist_filter.
  - apply Forall_fmap, Forall_forall. intros [name needed] Hin.
    apply list_elem_of_filter in Hin as [Hdef Hin].
    apply (proj1 (Forall_forall _ _) Hpos) in Hin.
    unfold in_deficit, deficit_of in *; simpl in *.
    destruct Hdef as [Habs|Hlt]; [|lia].
    rewrite (check_warehouse_stock_absent _ _ Habs). lia.
Qed.

(** C8 at the store ("Penne", 100): of three requested items the first is
    satisfied and the other two are in deficit. *)
Lemma reconcile_deficits_witness :
  reconcile [("Penne", 50); ("Matite", 20); ("Penne", 130)] penne_db
  = [("Matite", 20); ("Penne", 30)].
Proof.
  rewrite (proj1 (reconcile_deficits
                    [("Penne", 50); ("Matite", 20); ("Penne", 130)] penne_db
                    ltac:(repeat constructor))).
  reflexivity.
Defined.

End Reconciler.

(** ** WorkflowRunner *)

Section Runner.

Variables (hash : string -> Z) (now : string)
  (encode : list (string * Z) -> string).
Implicit Types (db : database) (items : list (string * Z)).

(** The record a save appends is the one the ledger returns for its id. *)
Lemma ledger_get_saved pdf text found actions db :
  let saved := save_processing_result now pdf text found actions db in
  ledger_get (sv_result_id (fst saved)) (snd saved)
  = Some (ProcessingRow (sv_result_id (fst saved)) pdf text found actions now).
Proof.
  simpl. unfold ledger_get; simpl. rewrite filter_app.
  assert (Hnone : filter
            (fun r => pr_id r
                      = next_rowid (processing_results db) (sqlite_sequence db))
            (processing_results db) = []).
  { destruct (filter _ (processing_results db)) as [|r l] eqn:E; [done|].
    assert (Hr : r ∈ r :: l) by left. rewrite <- E in Hr.
    apply list_elem_of_filter in Hr as [Hid Hr].
    pose proof (next_rowid_above_rows _ (sqlite_sequence db) r Hr). lia. }
  rewrite Hnone. simpl. rewrite filter_cons. simpl. by rewrite decide_True.
Qed.

(** C9: a run with an empty list of requested items fails with
    [EmptyRequest] and changes nothing: the database after the run, hence
    both the [warehouse] table and the [processing_results] table, is the
    database before it.  No other run fails with [EmptyRequest]. *)
Theorem run_empty_request source_document extracted_text db :
  run hash now encode source_document extracted_text [] db
  = (Failed EmptyRequest, db)
  /\ warehouse (snd (run hash now encode source_document extracted_text [] db))
     = warehouse db
  /\ processing_results
       (snd (run hash now encode source_document extracted_text [] db))
     = processing_results db
  /\ forall items,
      fst (run hash now encode source_document extracted_text items db)
      = Failed EmptyRequest <-> items = [].
Proof.
  split; [done|]. split; [done|]. split; [done|].
  intros items. split; [|by intros ->].
  destruct items as [|it items]; [done|]. unfold run.
  destruct (purchasing hash _ db) as [[actions|e] db1]; [|done].
  by rewrite ledger_get_saved.
Qed.

End Runner.

(** The end-to-end scenario of the specification: the store holds
    ("Penne", 100) and the request is [("Penne", 50), ("Matite", 20)].
    20 units of "Matite" are bought and one record enters the ledger. *)
Example run_scenario :
  let encode := fun l : list (string * Z) =>
    String.concat ";" ((fun d => d.1 +:+ ":" +:+ pretty d.2) <$> l) in
  run length_hash "2025-01-01 00:00:00" encode "doc1.pdf" "text"
    [("Penne", 50); ("Matite", 20)] penne_db
  = (Done (ProcessingRow 1 "doc1.pdf" "text" "Penne:50;Matite:20" "Matite:20"
             "2025-01-01 00:00:00"),
     Database [WarehouseRow "P001" "Penne" 100;
               WarehouseRow "PROD_6" "Matite" 20]
       [ProcessingRow 1 "doc1.pdf" "text" "Penne:50;Matite:20" "Matite:20"
          "2025-01-01 00:00:00"] 1).
Proof. reflexivity. Qed.

(** The same request run a second time finds nothing in deficit, buys
    nothing and appends a second record with the next id. *)
Example run_twice_scenario :
  let encode := fun l : list (string * Z) =>
    String.concat ";" ((fun d => d.1 +:+ ":" +:+ pretty d.2) <$> l) in
  let request := [("Penne", 50); ("Matite", 20)] in
  let once :=
    run length_hash "2025-01-01 00:00:00" encode "doc1.pdf" "text" request
      penne_db in
  let twice :=
    run length_hash "2025-01-01 00:00:05" encode "doc1.pdf" "text" request
      (snd once) in
  reconcile request (snd once) = []
  /\ warehouse (snd twice) = warehouse (snd once)
  /\ fst twice
     = Done (ProcessingRow 2 "doc1.pdf" "text" "Penne:50;Matite:20" ""
               "2025-01-01 00:00:05")
  /\ pr_id <$> processing_results (snd twice) = [1; 2].
Proof. repeat split; reflexivity. Qed.

(** The entry point's seeding of a fresh file, and of a file that holds
    the seed already. *)
Example seeded_db_fresh :
  seeded_db None
  = Database [WarehouseRow "P001" "Penne" 100; WarehouseRow "P002" "Matite" 50]
      [] 0
  /\ seeded_db (Some (seeded_db None)) = seeded_db None.
Proof. split; reflexivity. Qed.

(** * Further properties of the tools *)

(** ** What a purchase leaves alone *)

Section PurchaseFrame.

Variable hash : string -> Z.
Implicit Types (w : list warehouse_row) (db : database) (name : string)
  (qty : Z).

Lemma update_quantity_others v name w :
  filter (fun r => product_name r <> name) (update_quantity v name w)
  = filter (fun r => product_name r <> name) w.
Proof.
  unfold update_quantity. induction w as [|r w IH]; [done|].
  rewrite fmap_cons, !filter_cons.
  destruct (decide (product_name r = name)) as [E|N]; simpl.
  - rewrite !decide_False by (intros H; by apply H). exact IH.
  - rewrite !decide_True by done. by rewrite IH.
Qed.

Lemma update_quantity_same v name w :
  Forall (fun r => quantity r = v)
    (filter (fun r => product_name r = name) (update_quantity v name w)).
Proof.
  unfold update_quantity. induction w as [|r w IH]; [constructor|].
  rewrite fmap_cons, filter_cons.
  destruct (decide (product_name r = name)) as [E|N]; simpl.
  - rewrite decide_True by done. by constructor.
  - rewrite decide_False by done. exact IH.
Qed.

Lemma update_quantity_length v name w :
  List.length (update_quantity v name w) = List.length w.
Proof. unfold update_quantity. by rewrite length_fmap. Qed.

(** X1: a purchase of one product touches nothing else.  Whatever the
    outcome of [simulate_purchase], the rows of every other product name
    are the same rows in the same order, the ledger and its sequence
    counter are as before, and no row is removed: the table keeps its
    length or grows by exactly one row. *)
Theorem simulate_purchase_frame name qty db :
  let db' := snd (simulate_purchase hash name qty db) in
  filter (fun r => product_name r <> name) (warehouse db')
  = filter (fun r => product_name r <> name) (warehouse db)
  /\ (forall name', name' <> name ->
        select_quantity name' (warehouse db')
        = select_quantity name' (warehouse db))
  /\ processing_results db' = processing_results db
  /\ sqlite_sequence db' = sqlite_sequence db
  /\ (List.length (warehouse db') = List.length (warehouse db)
      \/ List.length (warehouse db') = S (List.length (warehouse db))).
Proof.
  simpl.
  destruct (simulate_purchase_cases hash db name qty)
    as [(q0 & Hsel & Hfits & E)|[(Hsel & Hfits & Hout & E)|(e & E)]];
    rewrite E; simpl.
  - split; [apply update_quantity_others|].
    split; [intros name' Hne; by apply select_quantity_update_other|].
    do 2 (split; [done|]). left. apply update_quantity_length.
  - split.
    { rewrite filter_app, filter_cons, decide_False by (intros H; by apply H).
      by rewrite filter_nil, app_nil_r. }
    split.
    { intros name' Hne. rewrite select_quantity_app.
      unfold select_quantity at 2. rewrite filter_cons, decide_False by done.
      by rewrite filter_nil, app_nil_r. }
    do 2 (split; [done|]). right. rewrite length_app. simpl. lia.
  - do 4 (split; [done|]). by left.
Qed.

(** X2: the [UPDATE] of a purchase is by name, not by row.  When several
    rows carry the purchased name and the quantity of the first of them
    plus the purchased quantity fits a signed 64-bit INTEGER, every one of
    them ends with that sum, whatever it held before; when the sum does
    not fit, the call raises [OverflowError] and every row keeps its
    value. *)
Theorem simulate_purchase_same_name name qty db q0 :
  head (select_quantity name (warehouse db)) = Some q0 ->
  (sqlite_integer (q0 + qty) ->
   select_quantity name (warehouse (snd (simulate_purchase hash name qty db)))
   = replicate (List.length (select_quantity name (warehouse db))) (q0 + qty))
  /\ (~ sqlite_integer (q0 + qty) ->
      simulate_purchase hash name qty db = (Raises OverflowError, db)).
Proof.
  intros H. split; intros Hfits.
  - rewrite (simulate_purchase_existing hash db name qty q0 H Hfits). simpl.
    clear H Hfits. generalize (q0 + qty). intros v.
    unfold select_quantity, update_quantity.
    induction (warehouse db) as [|r w IH]; [done|].
    rewrite fmap_cons, !filter_cons.
    destruct (decide (product_name r = name)) as [E|N]; simpl.
    + rewrite decide_True by done. rewrite !fmap_cons. simpl. by rewrite IH.
    + rewrite decide_False by done. exact IH.
  - by apply (simulate_purchase_existing_overflow hash db name qty q0).
Qed.

End PurchaseFrame.

(** X2 at a table seeded by hand with two rows named "Penne". *)
Lemma simulate_purchase_same_name_witness :
  select_quantity "Penne"
    (warehouse
       (snd (simulate_purchase length_hash "Penne" 5
               (Database [WarehouseRow "P001" "Penne" 100;
                          WarehouseRow "P002" "Matite" 50;
                          WarehouseRow "P003" "Penne" 7] [] 0))))
  = replicate
      (List.length
         (select_quantity "Penne"
            [WarehouseRow "P001" "Penne" 100; WarehouseRow "P002" "Matite" 50;
             WarehouseRow "P003" "Penne" 7]))
      (100 + 5).
Proof.
  apply (simulate_purchase_same_name length_hash "Penne" 5
           (Database [WarehouseRow "P001" "Penne" 100;
                      WarehouseRow "P002" "Matite" 50;
                      WarehouseRow "P003" "Penne" 7] [] 0) 100).
  - reflexivity.
  - unfold sqlite_integer. lia.
Defined.

(** ** Tool calls in any order *)

Section CallSequences.

Implicit Types (w : list warehouse_row) (db : database) (c : call)
  (cs : list call) (name : string).

Lemma exec_calls_cons c cs db :
  exec_calls (c :: cs) db = exec_calls cs (exec_call db c).
Proof. done. Qed.

(** A purchase of another name does not change what a name's purchases
    read. *)
Lemma purchase_other_name hash name name' qty db :
  name' <> name ->
  select_quantity name' (warehouse (snd (simulate_purchase hash name qty db)))
  = select_quantity name' (warehouse db).
Proof.
  intros Hne.
  destruct (simulate_purchase_cases hash db name qty)
    as [(q0 & Hsel & Hfits & E)|[(Hsel & Hfits & Hout & E)|(e & E)]];
    rewrite E; simpl; [| |done].
  - by apply select_quantity_update_other.
  - rewrite select_quantity_app. unfold select_quantity at 2.
    rewrite filter_cons, decide_False by done.
    by rewrite filter_nil, app_nil_r.
Qed.

(** X3: no update of a stored product is lost or misdirected in a run of
    tool calls every one of which returns.  When a row named [name]
    exists, then after any sequence of calls none of which raises
    (lookups, saves, purchases of this and of other names) the quantity
    stored for [name] is the initial one plus the quantities of the
    purchase calls made under exactly that name. *)
Theorem interleaved_purchases_sum cs db name q0 :
  head (select_quantity name (warehouse db)) = Some q0 ->
  all_return cs db ->
  head (select_quantity name (warehouse (exec_calls cs db)))
  = Some (q0 + sum_quantities (purchased_quantities name cs)).
Proof.
  revert db q0. induction cs as [|c cs IH]; intros db q0 H Hret.
  - simpl. rewrite H. f_equal. lia.
  - rewrite exec_calls_cons. destruct Hret as [Hc Hret].
    destruct c as [n|hash n qty|now pdf text items actions].
    + by rewrite (IH _ q0).
    + unfold purchased_quantities. cbn [omap list_omap].
      destruct (decide (n = name)) as [->|Hne].
      * rewrite (IH _ (q0 + qty)); [| |done].
        -- f_equal. unfold purchased_quantities. simpl. lia.
        -- simpl. simpl in Hc.
           destruct (decide (sqlite_integer (q0 + qty))) as [Hfits|Hover].
           ++ rewrite (simulate_purchase_existing hash db name qty q0 H Hfits).
              simpl. by apply (select_quantity_update_same _ _ q0).
           ++ by rewrite (simulate_purchase_existing_overflow
                            hash db name qty q0 H Hover) in Hc.
      * rewrite (IH _ q0); [done| |done]. simpl.
        rewrite purchase_other_name by done. exact H.
    + by rewrite (IH _ q0).
Qed.

(** What the next call does to one table depends on that table alone. *)
Lemma exec_call_warehouse db1 db2 c :
  warehouse db1 = warehouse db2 ->
  warehouse (exec_call db1 c)
  = if decide (is_purchase c) then warehouse (exec_call db2 c)
    else warehouse db2.
Proof.
  intros E. destruct c as [n|hash n qty|now pdf text items actions]; simpl;
    try done.
  unfold simulate_purchase. rewrite E.
  destruct (head (select_quantity n (warehouse db2))); simpl.
  - destruct (decide (sqlite_integer _)); done.
  - destruct (decide (sqlite_integer qty)); [|done].
    destruct (insert_warehouse _ (warehouse db2)); simpl; done.
Qed.

Lemma exec_call_ledger db1 db2 c :
  processing_results db1 = processing_results db2 ->
  sqlite_sequence db1 = sqlite_sequence db2 ->
  let next := if decide (is_save c) then exec_call db2 c else db2 in
  processing_results (exec_call db1 c) = processing_results next
  /\ sqlite_sequence (exec_call db1 c) = sqlite_sequence next.
Proof.
  intros E1 E2. destruct c as [n|hash n qty|now pdf text items actions]; simpl.
  - done.
  - destruct (simulate_purchase_cases hash db1 n qty)
      as [(q0 & Hsel & Hfits & E)|[(Hsel & Hfits & Hout & E)|(e & E)]];
      by rewrite E.
  - by rewrite E1, E2.
Qed.

Lemma exec_calls_warehouse cs db1 db2 :
  warehouse db1 = warehouse db2 ->
  warehouse (exec_calls cs db1)
  = warehouse (exec_calls (filter is_purchase cs) db2).
Proof.
  revert db1 db2. induction cs as [|c cs IH]; intros db1 db2 E; [done|].
  rewrite exec_calls_cons, filter_cons.
  pose proof (exec_call_warehouse db1 db2 c E) as Hc.
  destruct (decide (is_purchase c)).
  - rewrite exec_calls_cons. by apply IH.
  - by apply IH.
Qed.

Lemma exec_calls_ledger cs db1 db2 :
  processing_results db1 = processing_results db2 ->
  sqlite_sequence db1 = sqlite_sequence db2 ->
  processing_results (exec_calls cs db1)
  = processing_results (exec_calls (filter is_save cs) db2)
  /\ sqlite_sequence (exec_calls cs db1)
     = sqlite_sequence (exec_calls (filter is_save cs) db2).
Proof.
  revert db1 db2. induction cs as [|c cs IH]; intros db1 db2 E1 E2; [done|].
  rewrite exec_calls_cons, filter_cons.
  destruct (exec_call_ledger db1 db2 c E1 E2) as [H1 H2].
  destruct (decide (is_save c)).
  - rewrite exec_calls_cons. by apply IH.
  - by apply IH.
Qed.

Lemma exec_call_ledger_prefix db c :
  processing_results db `prefix_of` processing_results (exec_call db c).
Proof.
  destruct c as [n|hash n qty|now pdf text items actions]; simpl.
  - done.
  - destruct (simulate_purchase_cases hash db n qty)
      as [(q0 & Hsel & Hfits & E)|[(Hsel & Hfits & Hout & E)|(e & E)]];
      by rewrite E.
  - by apply prefix_app_r.
Qed.

(** X4: the two tables evolve independently and the ledger is
    append-only.  After any sequence of tool calls the [warehouse] table
    is what the purchases of the sequence alone would have made it, the
    [processing_results] table and its sequence counter are what the saves
    alone would have made them, and the ledger rows present before the
    sequence are still there, unchanged and in front. *)
Theorem tables_independent cs db :
  warehouse (exec_calls cs db)
  = warehouse (exec_calls (filter is_purchase cs) db)
  /\ processing_results (exec_calls cs db)
     = processing_results (exec_calls (filter is_save cs) db)
  /\ sqlite_sequence (exec_calls cs db)
     = sqlite_sequence (exec_calls (filter is_save cs) db)
  /\ processing_results db `prefix_of` processing_results (exec_calls cs db).
Proof.
  split; [by apply exec_calls_warehouse|].
  destruct (exec_calls_ledger cs db db eq_refl eq_refl) as [H1 H2].
  do 2 (split; [done|]). clear H1 H2.
  revert db. induction cs as [|c cs IH]; intros db; [done|].
  rewrite exec_calls_cons. etrans; [apply exec_call_ledger_prefix|apply IH].
Qed.

Lemma foldr_max_bounded (s : Z) (l : list Z) :
  Forall (fun x => x <= s) l -> foldr Z.max s l = s.
Proof. induction 1 as [|x l Hx _ IH]; simpl; [done|]. rewrite IH. lia. Qed.

(** X5: on a freshly initialised database the saves are numbered 1, 2,
    3, ... in the order they are made, whatever other tool calls run in
    between: after any call sequence the ids of the ledger rows are
    exactly 1 to n and the sequence counter is n, where n is the number of
    [save_processing_result] calls of the sequence. *)
Theorem ledger_ids_count cs :
  let db := exec_calls cs (init_db None) in
  let n := List.length (filter is_save cs) in
  pr_id <$> processing_results db = Z.of_nat <$> seq 1 n
  /\ sqlite_sequence db = Z.of_nat n.
Proof.
  simpl. induction cs as [|c cs IH] using rev_ind; [done|].
  rewrite exec_calls_snoc, filter_app, length_app.
  destruct IH as [Hids Hseq].
  destruct c as [n|hash n qty|now pdf text items actions].
  - simpl. by rewrite Nat.add_0_r.
  - pose proof (exec_call_ledger (exec_calls cs empty_db)
                  (exec_calls cs empty_db) (Purchase hash n qty)
                  eq_refl eq_refl) as [H1 H2].
    simpl in H1, H2 |- *. rewrite H1, H2. by rewrite Nat.add_0_r.
  - simpl. set (k := List.length (filter is_save cs)) in *.
    assert (Hnext : next_rowid (processing_results (exec_calls cs empty_db))
                      (sqlite_sequence (exec_calls cs empty_db))
                    = Z.of_nat (k + 1)).
    { unfold next_rowid. rewrite Hids, Hseq, foldr_max_bounded; [lia|].
      apply Forall_fmap, Forall_forall. intros i Hi. simpl.
      apply elem_of_seq in Hi. lia. }
    rewrite Hnext. split; [|done].
    rewrite fmap_app, Hids. simpl.
    rewrite seq_app, fmap_app. simpl. do 3 f_equal. lia.
Qed.

End CallSequences.

(** X3 at the seeded store and a run of six calls, two of them purchases
    of "Penne". *)
Lemma interleaved_purchases_sum_witness :
  head (select_quantity "Penne"
          (warehouse
             (exec_calls
                [Purchase length_hash "Penne" 10; Check "enne";
                 Purchase length_hash "Matite" 5;
                 Save "2025-01-01 00:00:00" "doc1.pdf" "text" "[]" "[]";
                 Purchase length_hash "Gomme" 3;
                 Purchase length_hash "Penne" 2]
                (seeded_db None))))
  = Some (100
          + sum_quantities
              (purchased_quantities "Penne"
                 [Purchase length_hash "Penne" 10; Check "enne";
                  Purchase length_hash "Matite" 5;
                  Save "2025-01-01 00:00:00" "doc1.pdf" "text" "[]" "[]";
                  Purchase length_hash "Gomme" 3;
                  Purchase length_hash "Penne" 2])).
Proof.
  apply (interleaved_purchases_sum
           [Purchase length_hash "Penne" 10; Check "enne";
            Purchase length_hash "Matite" 5;
            Save "2025-01-01 00:00:00" "doc1.pdf" "text" "[]" "[]";
            Purchase length_hash "Gomme" 3;
            Purchase length_hash "Penne" 2]
           (seeded_db None) "Penne" 100).
  - reflexivity.
  - vm_compute. tauto.
Defined.

(** ** What the stock lookup finds *)

Section StockLookup.

Implicit Types (w : list warehouse_row) (db : database) (name : string)
  (c d : ascii) (p pat s : list ascii).

Lemma filter_all_true {A} (f : A -> bool) (l : list A) :
  Forall (fun x => f x = true) l -> filter (fun x => f x) l = l.
Proof.
  induction 1 as [|x l Hx _ IH]; [done|].
  rewrite filter_cons, decide_True by by rewrite Hx. by rewrite IH.
Qed.

Lemma head_filter_first {A} (f : A -> bool) (l1 l2 : list A) x :
  f x = true -> Forall (fun y => f y = false) l1 ->
  head (filter (fun y => f y) (l1 ++ x :: l2)) = Some x.
Proof.
  intros Hx Hl1.
  rewrite filter_app, (filter_none_false _ _ Hl1), filter_cons.
  by rewrite decide_True by by rewrite Hx.
Qed.

Lemma check_warehouse_stock_head name db :
  check_warehouse_stock name db
  = match head (filter (fun r => like (stock_pattern name) (product_name r))
                  (warehouse db)) with
    | Some r => StockReply true (product_name r) (quantity r)
    | None => StockReply false name 0
    end.
Proof.
  unfold check_warehouse_stock, select_like, stock_pattern.
  by destruct (filter _ (warehouse db)).
Qed.

Lemma check_warehouse_stock_available name db :
  sr_available (check_warehouse_stock name db) = true
  <-> exists r, r ∈ warehouse db
                /\ like (stock_pattern name) (product_name r) = true.
Proof.
  rewrite check_warehouse_stock_head.
  destruct (filter _ (warehouse db)) as [|r l] eqn:E; simpl.
  - split; [done|]. intros (r & Hin & Hr). exfalso.
    assert (Hr' : r ∈ filter
                    (fun r => like (stock_pattern name) (product_name r))
                    (warehouse db)).
    { apply list_elem_of_filter. split; [by rewrite Hr|done]. }
    rewrite E in Hr'. by apply not_elem_of_nil in Hr'.
  - split; [intros _|done]. exists r.
    assert (Hr : r ∈ r :: l) by left. rewrite <- E in Hr.
    apply list_elem_of_filter in Hr as [Hr Hin]. split; [done|].
    by apply Is_true_true.
Qed.

(** X6: [check_warehouse_stock] answers from the first row, in insertion
    order, whose name matches the pattern [%name%].  It reports a product
    as available exactly when some stored name matches; the product and
    the quantity it reports are those of the first matching row, later
    matches are never looked at; and when no stored name matches it
    reports the queried name itself as not available with quantity 0. *)
Theorem check_warehouse_stock_first_match name db :
  (sr_available (check_warehouse_stock name db) = true
   <-> exists r, r ∈ warehouse db
                 /\ like (stock_pattern name) (product_name r) = true)
  /\ (forall w1 r w2,
        warehouse db = w1 ++ r :: w2 ->
        like (stock_pattern name) (product_name r) = true ->
        Forall (fun r' => like (stock_pattern name) (product_name r') = false)
          w1 ->
        check_warehouse_stock name db
        = StockReply true (product_name r) (quantity r))
  /\ (Forall (fun r => like (stock_pattern name) (product_name r) = false)
        (warehouse db) ->
      check_warehouse_stock name db = StockReply false name 0).
Proof.
  split; [apply check_warehouse_stock_available|]. split.
  - intros w1 r w2 Hw Hr Hw1. rewrite check_warehouse_stock_head, Hw.
    by rewrite (head_filter_first
                  (fun r => like (stock_pattern name) (product_name r))
                  w1 w2 r Hr Hw1).
  - intros Hw. rewrite check_warehouse_stock_head.
    by rewrite (filter_none_false
                  (fun r => like (stock_pattern name) (product_name r))
                  _ Hw).
Qed.

(** A pattern matches the text it is spelled with, wildcards included. *)
Lemma like_chars_underscore pat s :
  like_chars (underscore :: pat) s
  = match s with [] => false | _ :: s' => like_chars pat s' end.
Proof. by destruct s. Qed.

Lemma like_chars_self p : like_chars (p ++ [percent]) p = true.
Proof.
  induction p as [|c p IH]; [done|]. rewrite <- app_comm_cons.
  destruct (Ascii.eqb_spec c percent) as [->|Hp].
  - rewrite like_chars_percent, (like_chars_percent _ p), IH.
    by rewrite orb_true_r.
  - destruct (Ascii.eqb_spec c underscore) as [->|Hu].
    + by rewrite like_chars_underscore.
    + rewrite like_chars_plain by done. rewrite IH.
      by rewrite (proj2 (Ascii.eqb_eq _ _) eq_refl).
Qed.

Lemma like_stock_pattern_self name : like (stock_pattern name) name = true.
Proof.
  unfold like, stock_pattern. rewrite !chars_app.
  change (chars "%") with [percent]. simpl.
  change (like_chars (percent :: chars name ++ [percent]) (chars name) = true).
  by rewrite like_chars_percent, like_chars_self.
Qed.

(** What a successful purchase leaves in the table. *)
Lemma purchase_rows hash name qty db reply db' :
  simulate_purchase hash name qty db = (Returns reply, db') ->
  (exists r, r ∈ warehouse db' /\ product_name r = name)
  /\ (forall r, r ∈ warehouse db' -> product_name r = name ->
        quantity r = stored_quantity name db')
  /\ (forall r, r ∈ warehouse db' -> product_name r <> name ->
        r ∈ warehouse db).
Proof.
  intros Hcall.
  destruct (simulate_purchase_cases hash db name qty)
    as [(q0 & Hsel & Hfits & E)|[(Hsel & Hfits & Hout & E)|(e & E)]];
    rewrite E in Hcall; [| |done].
  - injection Hcall as _ <-. unfold stored_quantity. simpl.
    rewrite (select_quantity_update_same _ _ q0 _ Hsel). simpl.
    split; [|split].
    + apply select_quantity_head_elem in Hsel as (r & Hin & Hname & _).
      exists (WarehouseRow (product_id r) (product_name r) (q0 + qty)).
      split; [|done]. unfold update_quantity.
      apply list_elem_of_fmap. exists r. by rewrite decide_True.
    + intros r Hin Hname.
      pose proof (update_quantity_same (q0 + qty) name (warehouse db)) as Hall.
      apply (proj1 (Forall_forall _ _) Hall).
      by apply list_elem_of_filter.
    + intros r Hin Hname. unfold update_quantity in Hin.
      apply list_elem_of_fmap in Hin as (r0 & -> & Hin0).
      destruct (decide (product_name r0 = name)); [done|exact Hin0].
  - injection Hcall as _ <-. unfold stored_quantity. simpl.
    rewrite (select_quantity_snoc_absent _ _ _ _ Hsel). simpl.
    apply select_quantity_none in Hsel.
    split; [|split].
    + eexists. split; [apply elem_of_app; right; by left|done].
    + intros r Hr Hname. apply elem_of_app in Hr as [Hr|Hr].
      * exfalso. apply Hsel. rewrite <- Hname.
        by apply list_elem_of_fmap_2.
      * apply list_elem_of_singleton in Hr. by subst r.
    + intros r Hr Hname. apply elem_of_app in Hr as [Hr|Hr]; [done|].
      apply list_elem_of_singleton in Hr. by subst r.
Qed.

(** X7: a product that was just bought is found.  After every purchase
    that returns, [check_warehouse_stock] of the same name reports a
    product as available, whatever characters the name contains.  If in
    addition the pattern of the name matched no row of another name
    before the purchase, the lookup reports exactly the name and the
    quantity the purchase left in store. *)
Theorem purchase_then_check hash name qty db reply db' :
  simulate_purchase hash name qty db = (Returns reply, db') ->
  sr_available (check_warehouse_stock name db') = true
  /\ ((forall r, r ∈ warehouse db ->
         like (stock_pattern name) (product_name r) = true ->
         product_name r = name) ->
      check_warehouse_stock name db'
      = StockReply true name (stored_quantity name db')).
Proof.
  intros Hcall.
  destruct (purchase_rows hash name qty db reply db' Hcall)
    as ((r0 & Hin0 & Hname0) & Hsame & Hothers).
  assert (Hav : sr_available (check_warehouse_stock name db') = true).
  { apply check_warehouse_stock_available. exists r0. split; [done|].
    rewrite Hname0. apply like_stock_pattern_self. }
  split; [done|]. intros Honly.
  rewrite check_warehouse_stock_head in Hav |- *.
  destruct (head (filter _ (warehouse db'))) as [r|] eqn:Hhead; [|done].
  apply head_Some_elem_of, list_elem_of_filter in Hhead as [Hlike Hin].
  apply Is_true_true in Hlike.
  assert (Hname : product_name r = name).
  { destruct (decide (product_name r = name)) as [E|N]; [done|].
    apply Honly; [by apply Hothers|done]. }
  by rewrite (Hsame r Hin Hname), Hname.
Qed.

End StockLookup.

(** X7 at the seeded store of the script and a purchase of the unseen
    product "Gomme". *)
Lemma purchase_then_check_witness :
  sr_available
    (check_warehouse_stock "Gomme"
       (snd (simulate_purchase length_hash "Gomme" 12 (seeded_db None))))
  = true
  /\ ((forall r, r ∈ warehouse (seeded_db None) ->
         like (stock_pattern "Gomme") (product_name r) = true ->
         product_name r = "Gomme") ->
      check_warehouse_stock "Gomme"
        (snd (simulate_purchase length_hash "Gomme" 12 (seeded_db None)))
      = StockReply true "Gomme"
          (stored_quantity "Gomme"
             (snd (simulate_purchase length_hash "Gomme" 12 (seeded_db None))))).
Proof.
  apply (purchase_then_check length_hash "Gomme" 12 (seeded_db None)
           (purchased "Gomme" 12)).
  reflexivity.
Defined.

(** ** The lookup and the case of letters *)

Section LookupCase.

Implicit Types (db : database) (name : string) (c d : ascii)
  (p pat s : list ascii).

Lemma lower_percent d : lower d = percent -> d = percent.
Proof.
  destruct d as [[] [] [] [] [] [] [] []]; vm_compute; intros E;
    first [reflexivity | discriminate E].
Qed.

Lemma lower_underscore d : lower d = underscore -> d = underscore.
Proof.
  destruct d as [[] [] [] [] [] [] [] []]; vm_compute; intros E;
    first [reflexivity | discriminate E].
Qed.

(** Letters that differ in case only are the same to [LIKE], in the
    pattern and in the text. *)
Lemma like_chars_case_pattern p1 p2 s :
  lower <$> p1 = lower <$> p2 -> like_chars p1 s = like_chars p2 s.
Proof.
  revert p2 s. induction p1 as [|c1 p1 IH]; intros [|c2 p2] s E; try done.
  rewrite !fmap_cons in E. injection E as Ec Ep.
  destruct (Ascii.eqb_spec c1 percent) as [->|Hp1].
  { assert (c2 = percent) as -> by (by apply lower_percent).
    induction s as [|d s IHs].
    - rewrite !like_chars_percent. by rewrite (IH p2 []).
    - rewrite (like_chars_percent p1), (like_chars_percent p2).
      by rewrite IHs, (IH p2 (d :: s)). }
  destruct (Ascii.eqb_spec c1 underscore) as [->|Hu1].
  { assert (c2 = underscore) as -> by (by apply lower_underscore).
    rewrite !like_chars_underscore. destruct s; [done|]. by apply IH. }
  assert (plain c2) as Hc2.
  { split; intros ->; [apply Hp1|apply Hu1].
    - by apply lower_percent.
    - by apply lower_underscore. }
  rewrite (like_chars_plain c1), (like_chars_plain c2) by done.
  destruct s as [|d s]; [done|]. by rewrite Ec, (IH p2 s).
Qed.

Lemma like_chars_case_text pat s1 s2 :
  lower <$> s1 = lower <$> s2 -> like_chars pat s1 = like_chars pat s2.
Proof.
  revert s1 s2. induction pat as [|c pat IH]; intros s1 s2 E.
  - destruct s1, s2; done.
  - destruct (Ascii.eqb_spec c percent) as [->|Hp].
    { revert s2 E. induction s1 as [|d1 s1 IHs]; intros [|d2 s2] E; try done.
      rewrite !fmap_cons in E. injection E as Ed Es.
      rewrite (like_chars_percent pat (d1 :: s1)),
        (like_chars_percent pat (d2 :: s2)).
      rewrite (IHs s2 Es), (IH (d1 :: s1) (d2 :: s2)); [done|].
      by rewrite !fmap_cons, Ed, Es. }
    destruct (Ascii.eqb_spec c underscore) as [->|Hu].
    { rewrite !like_chars_underscore.
      destruct s1 as [|d1 s1], s2 as [|d2 s2]; try done.
      rewrite !fmap_cons in E. injection E as _ Es. by apply IH. }
    rewrite !(like_chars_plain c) by done.
    destruct s1 as [|d1 s1], s2 as [|d2 s2]; try done.
    rewrite !fmap_cons in E. injection E as Ed Es.
    by rewrite Ed, (IH s1 s2 Es).
Qed.

(** X8: the stock lookup does not see the case of the letters A-Z,
    neither in the queried name nor in the stored names.  A stored name
    matches the pattern of a query exactly when any respelling of it in
    another case matches the pattern of any respelling of the query; so
    two queries that differ in case only select the same rows, are
    available together and then report the same product and quantity. *)
Theorem check_warehouse_stock_case name1 name2 db :
  lower <$> chars name1 = lower <$> chars name2 ->
  (forall text1 text2,
      lower <$> chars text1 = lower <$> chars text2 ->
      like (stock_pattern name1) text1 = like (stock_pattern name2) text2)
  /\ select_like (stock_pattern name1) (warehouse db)
     = select_like (stock_pattern name2) (warehouse db)
  /\ sr_available (check_warehouse_stock name1 db)
     = sr_available (check_warehouse_stock name2 db)
  /\ sr_quantity (check_warehouse_stock name1 db)
     = sr_quantity (check_warehouse_stock name2 db)
  /\ (sr_available (check_warehouse_stock name1 db) = true ->
      check_warehouse_stock name1 db = check_warehouse_stock name2 db).
Proof.
  intros E.
  assert (Hlike : forall text1 text2,
             lower <$> chars text1 = lower <$> chars text2 ->
             like (stock_pattern name1) text1
             = like (stock_pattern name2) text2).
  { intros text1 text2 Et. unfold like, stock_pattern.
    rewrite (like_chars_case_text _ _ _ Et). apply like_chars_case_pattern.
    rewrite !chars_app, !fmap_app. by rewrite E. }
  assert (Hsel : select_like (stock_pattern name1) (warehouse db)
                 = select_like (stock_pattern name2) (warehouse db)).
  { unfold select_like. f_equal. apply list_filter_iff. intros r.
    by rewrite (Hlike (product_name r) (product_name r) eq_refl). }
  split; [exact Hlike|]. split; [exact Hsel|].
  unfold check_warehouse_stock. fold (stock_pattern name1).
  fold (stock_pattern name2). rewrite Hsel.
  by destruct (head (select_like (stock_pattern name2) (warehouse db))).
Qed.

Lemma like_chars_percents p s :
  Forall (fun c => c = percent) p -> p <> [] -> like_chars p s = true.
Proof.
  intros Hp. revert s. induction Hp as [|c p -> _ IH]; intros s Hne; [done|].
  destruct p as [|c' p].
  - apply like_chars_trailing_percent.
  - rewrite like_chars_percent, IH by done. done.
Qed.

(** X9: a query without any letter to look for finds the first row.  For
    the empty name, and for every name made of [%] characters only,
    [check_warehouse_stock] reports the first row of the table as
    available, and reports the queried name as not available only when
    the table is empty. *)
Theorem check_warehouse_stock_blank name db :
  Forall (fun c => c = percent) (chars name) ->
  check_warehouse_stock name db
  = match warehouse db with
    | r :: _ => StockReply true (product_name r) (quantity r)
    | [] => StockReply false name 0
    end.
Proof.
  intros Hname. rewrite check_warehouse_stock_head.
  rewrite (filter_all_true
             (fun r => like (stock_pattern name) (product_name r))).
  - by destruct (warehouse db).
  - apply Forall_forall. intros r _. unfold like, stock_pattern.
    rewrite !chars_app. apply like_chars_percents; [|done].
    apply Forall_app. split; [by repeat constructor|].
    apply Forall_app. split; [done|by repeat constructor].
Qed.

End LookupCase.

(** X8 at the queries "PENNE" and "penne" on the seeded store. *)
Lemma check_warehouse_stock_case_witness :
  check_warehouse_stock "PENNE" (seeded_db None)
  = check_warehouse_stock "penne" (seeded_db None).
Proof.
  apply (check_warehouse_stock_case "PENNE" "penne" (seeded_db None));
    reflexivity.
Defined.

(** X9 at the empty query on the seeded store. *)
Lemma check_warehouse_stock_blank_witness :
  check_warehouse_stock "" (seeded_db None) = StockReply true "Penne" 100.
Proof.
  apply (check_warehouse_stock_blank "" (seeded_db None)). constructor.
Defined.

(** ** Seeding the table *)

Section Seeding.

Implicit Types (db : database) (row : warehouse_row).

Lemma insert_or_ignore_present row db :
  product_id row ∈ product_id <$> warehouse db ->
  insert_or_ignore row db = db.
Proof.
  intros Hin. unfold insert_or_ignore, insert_warehouse.
  by rewrite decide_True.
Qed.

Lemma insert_or_ignore_ids row db :
  product_id row ∈ product_id <$> warehouse (insert_or_ignore row db)
  /\ (forall i, i ∈ product_id <$> warehouse db ->
        i ∈ product_id <$> warehouse (insert_or_ignore row db))
  /\ warehouse db `prefix_of` warehouse (insert_or_ignore row db)
  /\ processing_results (insert_or_ignore row db) = processing_results db
  /\ sqlite_sequence (insert_or_ignore row db) = sqlite_sequence db.
Proof.
  unfold insert_or_ignore, insert_warehouse.
  destruct (decide (product_id row ∈ product_id <$> warehouse db)); simpl.
  - done.
  - rewrite fmap_app. split; [apply elem_of_app; right; by left|].
    split; [intros i Hi; apply elem_of_app; by left|].
    split; [by apply prefix_app_r|done].
Qed.

(** X10: the script's set-up can be run again and again.  On any database
    file, [init_db] followed by the two seeding inserts keeps every row
    that was there, in front and unchanged (a row that already uses the id
    P001 or P002 is not overwritten), leaves the ledger alone, makes both
    ids present, and a second run of the set-up changes nothing. *)
Theorem seeded_db_idempotent file :
  seeded_db (Some (seeded_db file)) = seeded_db file
  /\ warehouse (init_db file) `prefix_of` warehouse (seeded_db file)
  /\ "P001" ∈ product_id <$> warehouse (seeded_db file)
  /\ "P002" ∈ product_id <$> warehouse (seeded_db file)
  /\ processing_results (seeded_db file) = processing_results (init_db file)
  /\ sqlite_sequence (seeded_db file) = sqlite_sequence (init_db file).
Proof.
  unfold seeded_db. set (db0 := init_db file).
  set (penne := WarehouseRow "P001" "Penne" 100).
  set (matite := WarehouseRow "P002" "Matite" 50).
  destruct (insert_or_ignore_ids penne db0) as (H1 & _ & Hpre1 & Hl1 & Hs1).
  destruct (insert_or_ignore_ids matite (insert_or_ignore penne db0))
    as (H2 & Hkeep & Hpre2 & Hl2 & Hs2).
  assert (H1' := Hkeep _ H1).
  split.
  - simpl. rewrite (insert_or_ignore_present penne) by exact H1'.
    by rewrite (insert_or_ignore_present matite) by exact H2.
  - split; [by etrans|]. split; [exact H1'|]. split; [exact H2|].
    split; congruence.
Qed.

End Seeding.

(** * Properties of the text tools *)

(** ** Strings as lists of characters *)

Section Strings.

Implicit Types (s : string) (l : list ascii).

Lemma chars_text_of l : chars (text_of l) = l.
Proof. apply list_ascii_of_string_of_list_ascii. Qed.

Lemma text_of_chars s : text_of (chars s) = s.
Proof. apply string_of_list_ascii_of_string. Qed.

Lemma length_chars s : List.length (chars s) = String.length s.
Proof. induction s as [|c s IH]; simpl; [done|]. by rewrite IH. Qed.

Lemma length_text_of l : String.length (text_of l) = List.length l.
Proof. by rewrite <- length_chars, chars_text_of. Qed.

Lemma text_of_app l1 l2 : text_of (l1 ++ l2) = text_of l1 +:+ text_of l2.
Proof. induction l1 as [|c l1 IH]; simpl; [done|]. by rewrite IH. Qed.

Lemma string_app_nil_r s : s +:+ "" = s.
Proof.
  induction s as [|c s IH]; [done|].
  change (String c (s +:+ "") = String c s). by rewrite IH.
Qed.

Lemma concat_text_of (ls : list (list ascii)) :
  String.concat "" (text_of <$> ls) = text_of (List.concat ls).
Proof.
  induction ls as [|l ls IH]; [done|].
  rewrite fmap_cons. cbn [List.concat]. rewrite text_of_app, <- IH.
  destruct ls as [|l' ls]; simpl.
  - by rewrite string_app_nil_r.
  - reflexivity.
Qed.

End Strings.

(** ** The chunks of [summarize_text] *)

Section Chunks.

Local Open Scope nat_scope.

Implicit Types (l : list ascii) (m n k : nat).

Lemma concat_take_drop {A} (l : list A) m n :
  List.concat ((fun k => take m (drop (k * m) l)) <$> seq 0 n) = take (n * m) l.
Proof.
  induction n as [|n IH]; [done|].
  rewrite seq_S, fmap_app, concat_app, IH. simpl.
  rewrite app_nil_r, take_take_drop. f_equal. lia.
Qed.

Lemma chunk_count_bounds len m :
  0 < m ->
  let n := (len + m - 1) / m in
  len <= n * m /\ (0 < n -> (n - 1) * m < len).
Proof.
  intros Hm n.
  pose proof (Nat.div_mod_eq (len + m - 1) m) as Hdm.
  pose proof (Nat.mod_upper_bound (len + m - 1) m ltac:(lia)) as Hmod.
  fold n in Hdm. nia.
Qed.

Lemma chunks_chars text :
  chunks text
  = (fun k => text_of (take max_chunk (drop (k * max_chunk) (chars text))))
      <$> seq 0 ((String.length text + max_chunk - 1) / max_chunk).
Proof.
  unfold chunks, range_step, slice. rewrite <- list_fmap_compose.
  apply list_fmap_ext. intros _ k _. simpl. do 2 f_equal. lia.
Qed.

Lemma max_chunk_positive : 0 < max_chunk.
Proof. unfold max_chunk. lia. Qed.

Lemma chunks_generic text m :
  0 < m ->
  let n := (String.length text + m - 1) / m in
  let cs := (fun k => text_of (take m (drop (k * m) (chars text))))
              <$> seq 0 n in
  String.concat "" cs = text
  /\ List.length cs = n
  /\ Forall (fun c => 1 <= String.length c <= m) cs
  /\ forall i c, cs !! i = Some c -> S i < List.length cs ->
                 String.length c = m.
Proof.
  intros Hm n cs.
  destruct (chunk_count_bounds (String.length text) m Hm) as [Hcover Hlast].
  fold n in Hcover, Hlast.
  assert (Hchunk : forall k,
             String.length (text_of (take m (drop (k * m) (chars text))))
             = Nat.min m (String.length text - k * m)).
  { intros k. by rewrite length_text_of, length_take, length_drop, length_chars. }
  assert (Hcs : List.length cs = n).
  { unfold cs. by rewrite length_fmap, length_seq. }
  split; [|split; [done|split]].
  - assert (cs = text_of
                   <$> ((fun k => take m (drop (k * m) (chars text)))
                          <$> seq 0 n)) as ->
      by (unfold cs; by rewrite <- list_fmap_compose).
    rewrite concat_text_of, concat_take_drop.
    rewrite take_ge by (rewrite length_chars; lia). apply text_of_chars.
  - unfold cs. apply Forall_fmap, Forall_forall. intros k Hk. simpl.
    apply elem_of_seq in Hk. rewrite Hchunk.
    assert (Hprev := Hlast ltac:(lia)). nia.
  - intros i c Hi Hnext. rewrite Hcs in Hnext. unfold cs in Hi.
    rewrite list_lookup_fmap in Hi.
    destruct (seq 0 n !! i) as [k|] eqn:Hk; [|done].
    apply lookup_seq in Hk as [-> _]. simpl in Hi. injection Hi as <-.
    rewrite Hchunk.
    assert (Hprev := Hlast ltac:(lia)). nia.
Qed.

(** X11: the chunks of [summarize_text] cut the text without loss.
    Joined in order they give the text back; there are as many of them as
    1024 goes into the length of the text, rounded up (none for the empty
    text); no chunk is empty or longer than 1024 characters; and every
    chunk but the last has exactly 1024 characters. *)
Theorem chunks_partition text :
  String.concat "" (chunks text) = text
  /\ List.length (chunks text) = (String.length text + 1023) / 1024
  /\ Forall (fun c => 1 <= String.length c <= 1024) (chunks text)
  /\ forall i c,
      chunks text !! i = Some c ->
      S i < List.length (chunks text) ->
      String.length c = 1024.
Proof.
  pose proof (chunks_generic text max_chunk max_chunk_positive) as H.
  cbv zeta in H. rewrite <- chunks_chars in H.
  replace (String.length text + max_chunk - 1)
    with (String.length text + 1023) in H by (unfold max_chunk; lia).
  exact H.
Qed.

(** A text has at most half as many words as characters, rounded up. *)
Lemma split_chars_count word l :
  2 * List.length (split_chars word l)
  <= List.length l + match word with [] => 1 | _ :: _ => 2 end.
Proof.
  revert word. induction l as [|c l IH]; intros word.
  - destruct word; simpl; lia.
  - simpl. destruct (is_space c).
    + specialize (IH []). destruct word; simpl in *; lia.
    + specialize (IH (word ++ [c])).
      destruct (word ++ [c]) eqn:E.
      * by destruct word.
      * destruct word; simpl in *; lia.
Qed.

Lemma split_count s : 2 * List.length (split s) <= String.length s + 1.
Proof.
  unfold split. rewrite length_fmap, <- length_chars.
  apply (split_chars_count [] (chars s)).
Qed.

Lemma summarize_chunks_few_words summarizer max_length (cs : list string) :
  Forall (fun c => List.length (split c) <= 50) cs ->
  summarize_chunks summarizer max_length cs = Value [].
Proof.
  induction 1 as [|c cs Hc _ IH]; [done|]. simpl.
  by rewrite decide_False by lia.
Qed.

(** X12: [summarize_text] never summarises a short text.  When loading
    the pipeline raises, the reply is the error reply with the message of
    that exception, whatever the text.  Once the pipeline has loaded, for
    a text of fewer than 101 characters the summariser is not consulted at
    all: the empty text gets the error reply of a division by zero, and
    every other such text gets a report with an empty summary of
    length 0. *)
Theorem summarize_text_short pipeline text max_length :
  String.length text < 101 ->
  summarize_text pipeline text max_length
  = match pipeline "summarization" "facebook/bart-large-cnn" with
    | Exception e => SummaryError e
    | Value _ =>
        if String.length text =? 0 then SummaryError "division by zero"
        else SummaryReport (String.length text) 0 ""
    end.
Proof.
  intros Hshort. unfold summarize_text.
  destruct (pipeline "summarization" "facebook/bart-large-cnn")
    as [summarizer|e]; [|done].
  rewrite summarize_chunks_few_words; [done|].
  rewrite chunks_chars. apply Forall_fmap, Forall_forall. intros k _. simpl.
  pose proof (split_count
                (text_of (take max_chunk (drop (k * max_chunk) (chars text)))))
    as Hwords.
  rewrite length_text_of, length_take, length_drop, length_chars in Hwords.
  lia.
Qed.

End Chunks.

(** X12 at a text of five characters and a pipeline that loads a
    summariser that would answer every chunk. *)
Lemma summarize_text_short_witness :
  summarize_text (fun _ _ => Value (fun _ _ => Value "riassunto")) "Penne" 130
  = SummaryReport 5 0 "".
Proof.
  apply (summarize_text_short
           (fun _ _ => Value (fun _ _ => Value "riassunto")) "Penne" 130).
  vm_compute. lia.
Defined.

(** The same text when the model cannot be loaded. *)
Example summarize_text_pipeline_fails :
  summarize_text (fun _ _ => Exception "model not found") "Penne" 130
  = SummaryError "model not found".
Proof. reflexivity. Qed.

(** ** The dictionary of [extract_entities] *)

Section Entities.

Local Open Scope nat_scope.

Implicit Types (ents : list entity) (ent : entity) (k t : string)
  (v : list string) (d : list (string * list string)).

Lemma add_entity_items d ent :
  add_entity d ent = (fun item => (item.1, add_text item.1 item.2 ent)) <$> d.
Proof.
  unfold add_entity, add_text.
  destruct (decide (label_ ent ∈ d.*1)) as [Hin|Hout].
  - apply list_fmap_ext. intros _ [k v] _. simpl.
    by repeat destruct (decide _).
  - rewrite <- (list_fmap_id d) at 1. apply list_fmap_ext.
    intros i [k v] Hkv. simpl. rewrite decide_False; [done|].
    intros E. apply Hout. apply list_elem_of_fmap. exists (k, v).
    split; [by rewrite <- E|]. by eapply list_elem_of_lookup_2.
Qed.

Lemma collect_items ents d :
  foldl add_entity d ents
  = (fun item => (item.1, foldl (add_text item.1) item.2 ents)) <$> d.
Proof.
  revert d. induction ents as [|ent ents IH]; intros d; simpl.
  - rewrite <- (list_fmap_id d) at 1. apply list_fmap_ext. by intros _ [k v] _.
  - rewrite IH, add_entity_items, <- list_fmap_compose.
    apply list_fmap_ext. by intros _ [k v] _.
Qed.

Lemma add_text_fold k ents v :
  NoDup v ->
  NoDup (foldl (add_text k) v ents)
  /\ forall t,
      t ∈ foldl (add_text k) v ents
      <-> t ∈ v \/ exists ent, ent ∈ ents /\ label_ ent = k
                               /\ strip (ent_text ent) = t.
Proof.
  revert v. induction ents as [|ent ents IH]; intros v Hv; simpl.
  - split; [done|]. intros t. split; [by left|].
    intros [H|(e & He & _)]; [done|by apply elem_of_nil in He].
  - assert (Hstep : NoDup (add_text k v ent)
                    /\ forall t, t ∈ add_text k v ent
                                 <-> t ∈ v \/ (label_ ent = k
                                               /\ strip (ent_text ent) = t)).
    { unfold add_text. destruct (decide (k = label_ ent)) as [->|Hk].
      - destruct (decide (strip (ent_text ent) ∈ v)) as [Hin|Hout].
        + split; [done|]. intros t. split; [by left|].
          intros [H|[_ <-]]; done.
        + split.
          * apply NoDup_app. split; [done|]. split; [|apply NoDup_singleton].
            intros x Hx Hx'. apply list_elem_of_singleton in Hx'. by subst x.
          * intros t. rewrite elem_of_app, list_elem_of_singleton.
            split; [intros [H| ->]; [by left|by right]|].
            intros [H|[_ <-]]; [by left|by right].
      - split; [done|]. intros t. split; [by left|].
        intros [H|[E _]]; [done|]. by destruct Hk. }
    destruct Hstep as [Hnd Hmem].
    destruct (IH _ Hnd) as [Hnd' Hmem']. split; [done|].
    intros t. rewrite Hmem', Hmem. split.
    + intros [[H|[Hk Ht]]|(e & He & Hk & Ht)].
      * by left.
      * right. exists ent. split; [left|done].
      * right. exists e. split; [by right|done].
    + intros [H|(e & He & Hk & Ht)]; [by left; left|].
      apply elem_of_cons in He as [->|He].
      * left. by right.
      * right. by exists e.
Qed.

Lemma entities_found_items ents :
  entities_found ents
  = filter (fun item => item.2 <> [])
      ((fun k => (k, foldl (add_text k) [] ents)) <$> entity_types).
Proof.
  unfold entities_found, empty_entities.
  by rewrite collect_items, <- list_fmap_compose.
Qed.

Lemma entity_types_NoDup : NoDup entity_types.
Proof. unfold entity_types. compute_done. Qed.

Lemma entities_found_mem ents k v :
  (k, v) ∈ entities_found ents
  <-> k ∈ entity_types /\ v = foldl (add_text k) [] ents /\ v <> [].
Proof.
  rewrite entities_found_items, list_elem_of_filter, list_elem_of_fmap. simpl.
  split.
  - intros [Hv (k' & E & Hk)]. injection E as -> ->. done.
  - intros (Hk & -> & Hv). split; [done|]. by exists k.
Qed.

Lemma entities_found_keys ents :
  (entities_found ents).*1 `sublist_of` entity_types.
Proof.
  rewrite entities_found_items.
  set (items := (fun k => (k, foldl (add_text k) [] ents)) <$> entity_types).
  assert (entity_types = items.*1) as Hkeys.
  { unfold items. rewrite <- list_fmap_compose.
    rewrite <- (list_fmap_id entity_types) at 1. by apply list_fmap_ext. }
  rewrite Hkeys. apply fmap_sublist, sublist_filter.
Qed.

(** X13: [extract_entities] reports every entity once, under a known
    type.  The dictionary it prints has only the eight declared types as
    keys, in the declared order and each at most once; no category in it
    is empty and no category lists a text twice; and a text is listed
    under a type exactly when that type is declared and the document has
    an entity of that type whose stripped text it is. *)
Theorem entities_found_spec ents :
  (entities_found ents).*1 `sublist_of` entity_types
  /\ NoDup (entities_found ents).*1
  /\ Forall (fun item => item.2 <> [] /\ NoDup item.2) (entities_found ents)
  /\ forall k t,
      (exists v, (k, v) ∈ entities_found ents /\ t ∈ v)
      <-> (k ∈ entity_types
           /\ exists ent, ent ∈ ents /\ label_ ent = k
                          /\ strip (ent_text ent) = t).
Proof.
  pose proof (entities_found_keys ents) as Hsub.
  split; [done|].
  split; [by eapply sublist_NoDup; [apply entity_types_NoDup|]|].
  split.
  - apply Forall_forall. intros [k v] Hkv.
    apply entities_found_mem in Hkv as (_ & -> & Hne). split; [done|].
    apply (add_text_fold k ents []). constructor.
  - intros k t. split.
    + intros (v & Hkv & Ht).
      apply entities_found_mem in Hkv as (Hk & -> & _). split; [done|].
      apply (add_text_fold k ents [] (NoDup_nil_2)) in Ht as [Ht|Ht]; [|done].
      by apply elem_of_nil in Ht.
    + intros (Hk & e & He & Hl & Ht).
      assert (Hin : t ∈ foldl (add_text k) [] ents).
      { apply (add_text_fold k ents [] (NoDup_nil_2)). right. by exists e. }
      exists (foldl (add_text k) [] ents). split; [|done].
      apply entities_found_mem. split; [done|]. split; [done|].
      intros E. rewrite E in Hin. by apply elem_of_nil in Hin.
Qed.

(** The dictionary spelled as a list of (type, text) pairs. *)
Lemma total_entities_pairs d :
  total_entities d
  = List.length (d ≫= fun item => (fun t => (item.1, t)) <$> item.2).
Proof.
  unfold total_entities. induction d as [|[k v] d IH]; [done|].
  rewrite !fmap_cons. simpl. rewrite length_app, length_fmap. f_equal.
  exact IH.
Qed.

(** X14: the total that [extract_entities] prints counts distinct
    entities of known types.  "Total entities found" is the number of
    different pairs of a declared type and a stripped text among the
    entities of the document: repetitions, and entities of any other
    type, do not count. *)
Theorem total_entities_distinct ents :
  total_entities (entities_found ents)
  = List.length (remove_dups (known_pairs ents)).
Proof.
  rewrite total_entities_pairs. apply Permutation_length.
  apply NoDup_Permutation.
  - apply NoDup_bind.
    + intros [k1 v1] [k2 v2] [k t] H1 H2 Hy1 Hy2. simpl in *.
      apply list_elem_of_fmap in Hy1 as (t1 & E1 & _).
      apply list_elem_of_fmap in Hy2 as (t2 & E2 & _).
      injection E1 as -> ->. injection E2 as -> ->.
      apply entities_found_mem in H1 as (_ & -> & _).
      by apply entities_found_mem in H2 as (_ & -> & _).
    + intros [k v] Hkv. simpl.
      apply entities_found_mem in Hkv as (_ & -> & _).
      apply NoDup_fmap_2; [by intros ? ? [=]|].
      apply (add_text_fold k ents []). constructor.
    + apply (NoDup_fmap_1 fst).
      eapply sublist_NoDup; [apply entity_types_NoDup|].
      apply entities_found_keys.
  - apply NoDup_remove_dups.
  - intros [k t]. rewrite elem_of_remove_dups, list_elem_of_bind.
    unfold known_pairs. rewrite list_elem_of_filter, list_elem_of_fmap. simpl.
    split.
    + intros ([k' v] & Hy & Hkv). simpl in Hy.
      apply list_elem_of_fmap in Hy as (t' & E & Ht). injection E as -> ->.
      apply entities_found_mem in Hkv as (Hk & -> & _). split; [done|].
      apply (add_text_fold k' ents [] (NoDup_nil_2)) in Ht as [Ht|Ht].
      * by apply elem_of_nil in Ht.
      * destruct Ht as (e & He & Hl & Hs). exists e. by rewrite Hl, Hs.
    + intros (Hk & e & E & He). injection E as -> ->.
      assert (Hin : strip (ent_text e)
                    ∈ foldl (add_text (label_ e)) [] ents).
      { apply (add_text_fold (label_ e) ents [] (NoDup_nil_2)). right.
        by exists e. }
      exists (label_ e, foldl (add_text (label_ e)) [] ents). simpl.
      split; [by apply list_elem_of_fmap_2|].
      apply entities_found_mem. split; [done|]. split; [done|].
      intros E. rewrite E in Hin. by apply elem_of_nil in Hin.
Qed.

End Entities.

(** ** The statements of [build_knowledge_graph] *)

Section KnowledgeGraph.

Local Open Scope nat_scope.

Implicit Types (ents : list entity) (ent : entity)
  (sents : list sentence) (sent : sentence).

Lemma create_nodes_snoc ents ent :
  create_nodes (ents ++ [ent]) = create_node (create_nodes ents) ent.
Proof. unfold create_nodes. by rewrite foldl_snoc. Qed.

Lemma create_nodes_invariant ents : nodes_invariant ents (create_nodes ents).
Proof.
  induction ents as [|ent ents IH] using rev_ind.
  - repeat split; simpl; try done; try constructor.
  - rewrite create_nodes_snoc.
    destruct (create_nodes ents) as [[entity_map issued] n].
    destruct IH as (Hissued & Hn & Hnd & Hkeys & Hfirst). simpl in *.
    unfold create_node.
    destruct (decide (entity_id ent ∈ entity_map.*1)) as [Hin|Hout].
    + split; [done|]. split; [done|]. split; [done|]. simpl. split.
      * intros i. rewrite fmap_app, elem_of_app, <- Hkeys. simpl.
        rewrite list_elem_of_singleton. split; [by left|].
        intros [H| ->]; done.
      * eapply Forall_impl; [exact Hfirst|].
        intros item (before & after & -> & Hid & Hnew).
        exists before, (after ++ [ent]). by rewrite <- app_assoc.
    + split; [|split; [|split; [|split]]]; simpl.
      * by rewrite fmap_app, Hissued.
      * rewrite length_app. simpl. lia.
      * rewrite fmap_app. apply NoDup_app. split; [done|]. split.
        -- intros x Hx Hx'. apply list_elem_of_singleton in Hx'. by subst x.
        -- apply NoDup_singleton.
      * intros i. rewrite !fmap_app, !elem_of_app, Hkeys. done.
      * apply Forall_app. split.
        -- eapply Forall_impl; [exact Hfirst|].
           intros item (before & after & -> & Hid & Hnew).
           exists before, (after ++ [ent]). by rewrite <- app_assoc.
        -- apply Forall_singleton. exists ents, []. simpl.
           split; [done|]. split; [done|]. by rewrite <- Hkeys.
Qed.

(** X15: [build_knowledge_graph] creates one node for each distinct
    entity id.  The loop over the entities of the document runs one
    [MERGE] of a node for each item it puts into [entity_map], and
    [nodes_created] counts them; the ids of these nodes are pairwise
    distinct and are exactly the ids of the entities of the document, so
    the count is the number of distinct ids; and the node of an id carries
    the text and the type of the first entity of the document with that
    id; later entities with the same id are passed over. *)
Theorem create_nodes_distinct ents :
  exists entity_map,
    create_nodes ents
    = (entity_map, node_statement <$> entity_map, List.length entity_map)
    /\ NoDup entity_map.*1
    /\ (forall i, i ∈ entity_map.*1 <-> i ∈ entity_id <$> ents)
    /\ List.length entity_map
       = List.length (remove_dups (entity_id <$> ents))
    /\ Forall (fun item =>
                 exists before after,
                   ents = before ++ item.2 :: after
                   /\ item.1 = entity_id item.2
                   /\ item.1 ∉ entity_id <$> before) entity_map.
Proof.
  pose proof (create_nodes_invariant ents) as Hinv.
  destruct (create_nodes ents) as [[entity_map issued] n].
  destruct Hinv as (Hissued & Hn & Hnd & Hkeys & Hfirst). simpl in *.
  exists entity_map. subst issued n.
  split; [done|]. split; [done|]. split; [done|]. split; [|done].
  rewrite <- (length_fmap fst entity_map). apply Permutation_length.
  apply NoDup_Permutation; [done|apply NoDup_remove_dups|].
  intros i. by rewrite elem_of_remove_dups.
Qed.

Lemma later_pairs_length {A} (l : list A) :
  2 * List.length (later_pairs l) = List.length l * (List.length l - 1).
Proof.
  induction l as [|x l IH]; [done|]. cbn [later_pairs List.length].
  rewrite length_app, length_fmap.
  generalize dependent (List.length (later_pairs l)).
  generalize (List.length l). intros n p IH.
  destruct n as [|n]; simpl in *; lia.
Qed.

Lemma later_pairs_spec {A} (l : list A) x y :
  (x, y) ∈ later_pairs l
  <-> exists i j, i < j /\ l !! i = Some x /\ l !! j = Some y.
Proof.
  induction l as [|a l IH]; simpl.
  - split; [by intros H%elem_of_nil|]. by intros (i & j & _ & H & _).
  - rewrite elem_of_app, list_elem_of_fmap, IH. split.
    + intros [(y' & E & Hy)|(i & j & Hij & Hi & Hj)].
      * injection E as -> ->. apply list_elem_of_lookup in Hy as [j Hj].
        exists 0, (S j). split; [lia|]. done.
      * exists (S i), (S j). split; [lia|]. done.
    + intros (i & j & Hij & Hi & Hj). destruct j as [|j]; [lia|].
      simpl in Hj. destruct i as [|i].
      * left. injection Hi as ->. exists y. split; [done|].
        by eapply list_elem_of_lookup_2.
      * right. exists i, j. split; [lia|]. done.
Qed.

Lemma relate_fold sent (pairs : list (entity * entity)) issued n :
  foldl (relate sent) (issued, n) pairs
  = (issued ++ (co_occurrence sent <$> pairs), n + List.length pairs).
Proof.
  revert issued n. induction pairs as [|p pairs IH]; intros issued n; simpl.
  - by rewrite app_nil_r, Nat.add_0_r.
  - unfold relate at 2. simpl. rewrite IH, <- app_assoc. simpl.
    f_equal. lia.
Qed.

Lemma create_relationships_fold sents issued n :
  foldl (fun st sent => foldl (relate sent) st (later_pairs (sent_ents sent)))
    (issued, n) sents
  = (issued
     ++ (sents ≫= fun sent =>
           co_occurrence sent <$> later_pairs (sent_ents sent)),
     n + sum_list ((fun sent => List.length (later_pairs (sent_ents sent)))
                     <$> sents)).
Proof.
  revert issued n. induction sents as [|sent sents IH]; intros issued n.
  - simpl. by rewrite app_nil_r, Nat.add_0_r.
  - cbn [foldl]. rewrite relate_fold, IH, fmap_cons. simpl.
    rewrite <- app_assoc. f_equal. lia.
Qed.

(** X16: [build_knowledge_graph] relates every entity of a sentence to
    every later entity of the same sentence.  The statements of the loop
    over the sentences are, sentence by sentence, one [MERGE] of a
    relationship for each pair of an entity and a later entity of the
    sentence, with the first 200 characters of the sentence as context;
    [relationships_created] counts these statements, n * (n - 1) / 2 for a
    sentence with n entities, whether or not two of them relate the same
    two ids. *)
Theorem create_relationships_pairs sents :
  create_relationships sents
  = (sents ≫= (fun sent =>
                 co_occurrence sent <$> later_pairs (sent_ents sent)),
     sum_list ((fun sent =>
                  List.length (sent_ents sent)
                  * (List.length (sent_ents sent) - 1) / 2) <$> sents))
  /\ forall sent ent1 ent2,
      sent ∈ sents ->
      ((ent1, ent2) ∈ later_pairs (sent_ents sent)
       <-> exists i j, i < j /\ sent_ents sent !! i = Some ent1
                       /\ sent_ents sent !! j = Some ent2).
Proof.
  split.
  - unfold create_relationships.
    rewrite create_relationships_fold, app_nil_l, Nat.add_0_l.
    f_equal. f_equal. apply list_fmap_ext. intros _ sent _.
    pose proof (later_pairs_length (sent_ents sent)) as H.
    apply Nat.div_unique_exact; lia.
  - intros sent ent1 ent2 _. apply later_pairs_spec.
Qed.

End KnowledgeGraph.

(** ** The order of the statements of [build_knowledge_graph] *)

Section GraphStatements.

Implicit Types (ents : list entity) (sents : list sentence)
  (stmts : list statement).

Lemma later_pairs_elem {A} (l : list A) x y :
  (x, y) ∈ later_pairs l -> x ∈ l /\ y ∈ l.
Proof.
  intros H. apply later_pairs_spec in H as (i & j & _ & Hi & Hj).
  split; by eapply list_elem_of_lookup_2.
Qed.

(** A statement that stands after a prefix it is not part of. *)
Lemma split_after_prefix {A} (l1 l2 before after : list A) x :
  l1 ++ l2 = before ++ x :: after -> x ∉ l1 ->
  exists rest, before = l1 ++ rest.
Proof.
  intros E Hx. apply app_eq_inv in E as [(k & -> & Hk)|(k & -> & _)].
  - destruct k as [|y k].
    + exists []. by rewrite !app_nil_r.
    + injection Hk as <- _. exfalso. apply Hx. apply elem_of_app. right. left.
  - by exists k.
Qed.

Lemma relationship_statements_elem sents x :
  x ∈ (create_relationships sents).1 ->
  exists sent ent1 ent2,
    sent ∈ sents /\ ent1 ∈ sent_ents sent /\ ent2 ∈ sent_ents sent
    /\ x = co_occurrence sent (ent1, ent2).
Proof.
  unfold create_relationships. rewrite create_relationships_fold. simpl.
  intros H. apply list_elem_of_bind in H as (sent & Hx & Hsent).
  apply list_elem_of_fmap in Hx as ([ent1 ent2] & -> & Hpair).
  apply later_pairs_elem in Hpair as [H1 H2]. by exists sent, ent1, ent2.
Qed.

Lemma node_statements_elem ents ent :
  ent ∈ ents ->
  exists text type, MergeEntity (entity_id ent) text type ∈ (create_nodes ents).1.2.
Proof.
  intros Hent. pose proof (create_nodes_invariant ents) as Hinv.
  destruct (create_nodes ents) as [[entity_map issued] n].
  destruct Hinv as (-> & _ & _ & Hkeys & _). simpl in *.
  assert (Hid : entity_id ent ∈ entity_map.*1).
  { apply Hkeys. by apply list_elem_of_fmap_2. }
  apply list_elem_of_fmap in Hid as ([i e] & Hi & Hitem). simpl in Hi. subst i.
  exists (ent_text e), (label_ e).
  apply list_elem_of_fmap. by exists (entity_id ent, e).
Qed.

Lemma node_statements_kind ents id1 id2 context :
  MergeCoOccurs id1 id2 context ∉ (create_nodes ents).1.2.
Proof.
  pose proof (create_nodes_invariant ents) as Hinv.
  destruct (create_nodes ents) as [[entity_map issued] n].
  destruct Hinv as (-> & _). simpl. intros H.
  by apply list_elem_of_fmap in H as (item & E & _).
Qed.

Lemma run_statements_prefix run ran todo :
  exists k, (run_statements run ran todo).1 = ran ++ take k todo
            /\ ((run_statements run ran todo).2 = None ->
                (run_statements run ran todo).1 = ran ++ todo).
Proof.
  revert ran. induction todo as [|q todo IH]; intros ran.
  - exists 0%nat. simpl. by rewrite app_nil_r.
  - cbn [run_statements]. destruct (run ran q) as [[]|e].
    + destruct (IH (ran ++ [q])) as (k & E & Hall). exists (S k). split.
      * rewrite E, firstn_cons. by rewrite <- app_assoc.
      * intros Hnone. rewrite (Hall Hnone). by rewrite <- app_assoc.
    + exists 1%nat. cbn [fst snd]. rewrite firstn_cons, take_0. by split.
Qed.

(** In the statements of a whole run the nodes of a relationship stand
    before it. *)
Lemma graph_statements_order doc before id1 id2 context after :
  (forall sent ent, sent ∈ doc_sents doc -> ent ∈ sent_ents sent ->
                    ent ∈ doc_ents doc) ->
  graph_statements doc = before ++ MergeCoOccurs id1 id2 context :: after ->
  (exists t1 k1, MergeEntity id1 t1 k1 ∈ before)
  /\ (exists t2 k2, MergeEntity id2 t2 k2 ∈ before).
Proof.
  intros Hsents. unfold graph_statements.
  pose proof (node_statements_elem (doc_ents doc)) as Hnodes.
  pose proof (node_statements_kind (doc_ents doc)) as Hkind.
  pose proof (relationship_statements_elem (doc_sents doc)) as Hrels.
  destruct (create_nodes (doc_ents doc)) as [[entity_map nodes] n].
  destruct (create_relationships (doc_sents doc)) as [rels r].
  simpl in *. intros E.
  assert (Hprefix : exists rest, before = (DeleteEntities :: nodes) ++ rest).
  { apply (split_after_prefix _ (rels ++ [CountGraph]) _ after
             (MergeCoOccurs id1 id2 context)); [exact E|].
    intros H. apply elem_of_cons in H as [H|H]; [done|]. by apply Hkind in H. }
  destruct Hprefix as [rest ->].
  assert (Hin : MergeCoOccurs id1 id2 context ∈ rels).
  { rewrite <- app_assoc in E. simpl in E. injection E as E.
    apply app_inv_head in E.
    assert (H : MergeCoOccurs id1 id2 context ∈ rels ++ [CountGraph]).
    { rewrite E. apply elem_of_app. right. left. }
    apply elem_of_app in H as [H|H]; [done|].
    by apply list_elem_of_singleton in H. }
  apply Hrels in Hin as (sent & ent1 & ent2 & Hsent & H1 & H2 & Hx).
  unfold co_occurrence in Hx. simpl in Hx. injection Hx as -> -> _.
  destruct (Hnodes ent1 (Hsents _ _ Hsent H1)) as (t1 & k1 & Hn1).
  destruct (Hnodes ent2 (Hsents _ _ Hsent H2)) as (t2 & k2 & Hn2).
  split.
  - exists t1, k1. apply elem_of_app. left. by right.
  - exists t2, k2. apply elem_of_app. left. by right.
Qed.

(** The statements of every run are an initial part of those of the whole
    run, and all of them unless the reply is the error reply. *)
Lemma build_knowledge_graph_statements nlp db text uri user password doc :
  nlp "en_core_web_lg" text = Value doc ->
  let result := build_knowledge_graph nlp db text uri user password in
  result.2 `prefix_of` graph_statements doc
  /\ ((forall e, result.1 <> graph_error e) ->
      result.2 = graph_statements doc).
Proof.
  intros Hnlp. simpl. unfold build_knowledge_graph, graph_statements.
  rewrite Hnlp.
  destruct (open_session db uri user password) as [[]|e].
  2:{ split; [apply prefix_nil|]. intros H. by destruct (H e). }
  destruct (create_nodes (doc_ents doc)) as [[entity_map nodes] n].
  destruct (create_relationships (doc_sents doc)) as [rels r].
  cbn [fst snd].
  set (body := [DeleteEntities] ++ nodes ++ rels).
  destruct (run_statements_prefix (session_run db) [] body) as (k & E & Hall).
  destruct (run_statements (session_run db) [] body) as [ran [e|]].
  - cbn [fst snd] in *. subst ran. split.
    + exists (drop k body ++ [CountGraph]).
      rewrite app_nil_l, (app_assoc (take k body)), take_drop. unfold body.
      by rewrite <- !app_assoc.
    + intros H. by destruct (H e).
  - cbn [fst snd] in *. rewrite (Hall eq_refl), app_nil_l.
    assert (Hplan : body ++ [CountGraph]
                    = [DeleteEntities] ++ nodes ++ rels ++ [CountGraph]).
    { unfold body. by rewrite <- !app_assoc. }
    destruct (stats db body) as [[node_count relationship_count]|e].
    + destruct (close db) as [[]|e]; cbn [fst snd]; rewrite Hplan.
      * by split.
      * split; [done|]. intros H. by destruct (H e).
    + cbn [fst snd]. rewrite Hplan. split; [done|].
      intros H. by destruct (H e).
Qed.

(** X17: [build_knowledge_graph] wipes the graph first and relates only
    nodes it has merged.  For a document each of whose sentences has its
    entities among the entities of the document, and whatever Neo4j does:
    the statements handed to the session are an initial part of those of
    a whole run (none when the session cannot be opened); the first of
    them is the deletion of all [Entity] nodes; and before every [MERGE]
    of a relationship the nodes of both of its ids have been merged.
    Unless the reply is the error reply, the run is whole and its last
    statement is the count. *)
Theorem build_knowledge_graph_order nlp db text uri user password doc :
  nlp "en_core_web_lg" text = Value doc ->
  (forall sent ent, sent ∈ doc_sents doc -> ent ∈ sent_ents sent ->
                    ent ∈ doc_ents doc) ->
  let result := build_knowledge_graph nlp db text uri user password in
  let stmts := snd result in
  stmts `prefix_of` graph_statements doc
  /\ (forall q, head stmts = Some q -> q = DeleteEntities)
  /\ (forall before id1 id2 context after,
        stmts = before ++ MergeCoOccurs id1 id2 context :: after ->
        (exists t1 k1, MergeEntity id1 t1 k1 ∈ before)
        /\ (exists t2 k2, MergeEntity id2 t2 k2 ∈ before))
  /\ ((forall e, fst result <> graph_error e) ->
      stmts = graph_statements doc /\ last stmts = Some CountGraph).
Proof.
  intros Hnlp Hsents result stmts.
  destruct (build_knowledge_graph_statements nlp db text uri user password
              doc Hnlp) as [Hprefix Hwhole].
  fold result in Hprefix, Hwhole. fold stmts in Hprefix, Hwhole.
  split; [done|]. split; [|split].
  - intros q Hq. destruct Hprefix as [rest E].
    destruct stmts as [|q' stmts']; [done|].
    injection Hq as ->. unfold graph_statements in E. by injection E.
  - intros before id1 id2 context after E. destruct Hprefix as [rest Hplan].
    apply (graph_statements_order doc before id1 id2 context (after ++ rest));
      [done|].
    rewrite Hplan, E. by rewrite <- app_assoc.
  - intros Hok. rewrite (Hwhole Hok). split; [done|].
    unfold graph_statements. by rewrite !app_assoc, last_snoc.
Qed.

End GraphStatements.

Lemma apple_doc_sentences sent ent :
  sent ∈ doc_sents apple_doc -> ent ∈ sent_ents sent ->
  ent ∈ doc_ents apple_doc.
Proof.
  intros Hsent Hent. simpl in *.
  repeat (apply elem_of_cons in Hsent as [->|Hsent]; simpl in Hent;
          [repeat (apply elem_of_cons in Hent as [->|Hent];
                   [by repeat constructor|]);
           by apply elem_of_nil in Hent|]).
  by apply elem_of_nil in Hsent.
Defined.

(** X17 at a document of two sentences about Apple and a database that
    raises at the third statement of the session. *)
Lemma build_knowledge_graph_order_witness :
  let result :=
    build_knowledge_graph (fun _ _ => Value apple_doc)
      (failing_at 2 "connection lost") "text" "bolt://localhost:7687"
      "neo4j" "password" in
  let stmts := snd result in
  stmts `prefix_of` graph_statements apple_doc
  /\ (forall q, head stmts = Some q -> q = DeleteEntities)
  /\ (forall before id1 id2 context after,
        stmts = before ++ MergeCoOccurs id1 id2 context :: after ->
        (exists t1 k1, MergeEntity id1 t1 k1 ∈ before)
        /\ (exists t2 k2, MergeEntity id2 t2 k2 ∈ before))
  /\ ((forall e, fst result <> graph_error e) ->
      stmts = graph_statements apple_doc /\ last stmts = Some CountGraph).
Proof.
  apply (build_knowledge_graph_order (fun _ _ => Value apple_doc)
           (failing_at 2 "connection lost") "text" "bolt://localhost:7687"
           "neo4j" "password" apple_doc); [reflexivity|].
  apply apple_doc_sentences.
Defined.

(** The run of the example that is cut short: the reply is the error
    reply and the third statement is the last. *)
Example build_knowledge_graph_cut_short :
  build_knowledge_graph (fun _ _ => Value apple_doc)
    (failing_at 2 "connection lost") "text" "bolt://localhost:7687"
    "neo4j" "password"
  = ("Error building knowledge graph: connection lost",
     [DeleteEntities; MergeEntity "ORG_Apple" "Apple" "ORG";
      MergeEntity "PERSON_Tim_Cook" "Tim Cook" "PERSON"]).
Proof. reflexivity. Qed.

(** The whole run of the example: three nodes, three relationships, and
    the count at the end. *)
Example build_knowledge_graph_whole :
  let result :=
    build_knowledge_graph (fun _ _ => Value apple_doc) (accepting 3 3)
      "text" "bolt://localhost:7687" "neo4j" "password" in
  fst result = graph_created 3 3 3 3 "bolt://localhost:7687"
  /\ snd result = graph_statements apple_doc
  /\ List.length (snd result) = 8%nat
  /\ last (snd result) = Some CountGraph.
Proof. cbv zeta. repeat split; reflexivity. Qed.

(** A session that cannot be opened runs no statement. *)
Example build_knowledge_graph_no_session :
  build_knowledge_graph (fun _ _ => Value apple_doc)
    (Neo4j (fun _ _ _ => Exception "connection refused")
       (fun _ _ => Value tt) (fun _ => Value (0, 0)%nat) (Value tt))
    "text" "bolt://localhost:7687" "neo4j" "password"
  = ("Error building knowledge graph: connection refused", []).
Proof. reflexivity. Qed.
